(** * Coding_Teams: the work-package scheduler of [CodingTeam]

    A shallow embedding of [src/team/coding_team.py]: the routing of a work
    package to an agent ([_find_agent_for_package], [_get_file_type]), the
    readiness test ([_get_available_packages]), the execution of one package
    ([_execute_single_package]), the scheduling loop
    ([execute_work_packages]) and the part of the final report that speaks
    about packages ([generate_final_report]).

    Python data is modelled as follows.
    - [str] is [string]; paths and tags are taken to be ASCII, so
      [str.lower] only moves the letters [A]..[Z].
    - A work package is a JSON object read with [package["package_id"]] and
      [package.get(key, default)]: a record whose optional keys are
      [option] fields, read through getters that apply the default.
    - [self.agents] is a dict from names to agent objects; an agent object
      is identified with its key, so the registry is the list of its keys.
    - [self.completed_packages] is a Python list of ids, a [list string].
    - The logger is a list of events, one constructor per [self.logger]
      call of the scheduler, in the order the calls happen.
    - Workers ([agent.execute_step]) are external: an oracle tells, for each
      invocation, whether the awaited call returns, raises, or never
      returns. *)

From Stdlib Require Import List String Ascii Bool Arith ZArith Lia.
Import ListNotations.

Local Open Scope string_scope.
Local Open Scope list_scope.

(** ** Python string and list primitives *)

Module Py.

(** [c.lower()] on one ASCII character. *)
Definition lower_ascii (c : ascii) : ascii :=
  let n := nat_of_ascii c in
  if ((65 <=? n) && (n <=? 90))%nat then ascii_of_nat (n + 32) else c.

(** [s.lower()] *)
Fixpoint lower (s : string) : string :=
  match s with
  | EmptyString => EmptyString
  | String c t => String (lower_ascii c) (lower t)
  end.

(** [x in s] for two strings: [x] occurs in [s] as a substring. *)
Fixpoint contains (s x : string) : bool :=
  String.prefix x s ||
  match s with
  | EmptyString => false
  | String _ t => contains t x
  end.

(** [s.endswith(suffix)] *)
Fixpoint endswith1 (s suffix : string) : bool :=
  String.eqb s suffix ||
  match s with
  | EmptyString => false
  | String _ t => endswith1 t suffix
  end.

(** [s.endswith((suf1, suf2, ...))] *)
Definition endswith (s : string) (suffixes : list string) : bool :=
  existsb (endswith1 s) suffixes.

(** [any(x in s for x in xs)] *)
Definition any_in (s : string) (xs : list string) : bool :=
  existsb (contains s) xs.

(** [x in l] for a list of strings. *)
Definition mem (x : string) (l : list string) : bool :=
  existsb (String.eqb x) l.

(** [not s] for a string: true on the empty string. *)
Definition falsy (s : string) : bool :=
  match s with EmptyString => true | _ => false end.

(** [l[:k]] for an integer [k] of either sign. *)
Definition slice_to {A : Type} (l : list A) (k : Z) : list A :=
  if (0 <=? k)%Z then firstn (Z.to_nat k) l
  else firstn (List.length l - Z.to_nat (- k)) l.

(** [d.get(k)] on a dict given as an association list. *)
Fixpoint dict_get {V : Type} (d : list (string * V)) (k : string) : option V :=
  match d with
  | [] => None
  | (k', v) :: d' => if String.eqb k' k then Some v else dict_get d' k
  end.

End Py.

(** ** Work packages *)

(** One entry of [files_to_create]; its path is read with [.get] and
    defaults to the empty string. *)
Record file_spec : Type := mkFile {
  file_path : option string
}.

(** A work package. [package_id] is read with [package["package_id"]];
    the other keys are read with [.get] and may be absent. *)
Record package : Type := mkPackage {
  package_id : string;
  agent : option string;
  files_to_create : option (list file_spec);
  dependencies : option (list string)
}.

(** [f.get] of the key [file_path], with the empty string as default. *)
Definition get_file_path (f : file_spec) : string :=
  match file_path f with Some p => p | None => EmptyString end.

(** [package.get] of the key [agent], with the empty string as default. *)
Definition get_agent (p : package) : string :=
  match agent p with Some a => a | None => EmptyString end.

(** [package.get("files_to_create", [])] *)
Definition get_files_to_create (p : package) : list file_spec :=
  match files_to_create p with Some l => l | None => [] end.

(** [package.get("dependencies", [])] *)
Definition get_dependencies (p : package) : list string :=
  match dependencies p with Some l => l | None => [] end.

(** ** Routing: [_get_file_type] and [_find_agent_for_package] *)

(** [CodingTeam._get_file_type] *)
Definition _get_file_type (file_path : string) : string :=
  if Py.falsy file_path then "unknown"
  else
    let path_lower := Py.lower file_path in
    if Py.any_in path_lower ["test"; "spec"] then "test"
    else if Py.endswith path_lower [".py"; ".pyx"] then "python"
    else if Py.endswith path_lower [".js"; ".ts"; ".jsx"; ".tsx"] then "javascript"
    else if Py.endswith path_lower [".html"; ".htm"] then "html"
    else if Py.endswith path_lower [".css"; ".scss"; ".sass"] then "css"
    else if Py.endswith path_lower [".json"; ".yaml"; ".yml"] then "config"
    else if Py.any_in path_lower ["docker"; "deploy"; "ci"; "cd"] then "deploy"
    else if Py.any_in path_lower ["ml"; "model"; "train"; "predict"; "data"] then "ml"
    else if Py.any_in path_lower ["api"; "server"; "backend"] then "api"
    else "generic".

(** The local dict [agent_mapping] of [_find_agent_for_package]. *)
Definition agent_mapping : list (string * string) :=
  [ ("backend_engineer", "backend_specialist");
    ("frontend_engineer", "frontend_specialist");
    ("fullstack_engineer", "fullstack_specialist");
    ("ml_engineer", "ml_specialist");
    ("devops_engineer", "devops_specialist");
    ("qa_engineer", "qa_specialist");
    ("requirements_analyst", "requirements_analyst") ].

(** [agent_mapping.get(agent_name, agent_name)] *)
Definition mapped_name (agent_name : string) : string :=
  match Py.dict_get agent_mapping agent_name with
  | Some m => m
  | None => agent_name
  end.

(** [self.agents.get(name)]: the agent registered under [name], if any. *)
Definition agents_get (agents : list string) (name : string) : option string :=
  if Py.mem name agents then Some name else None.

(** [any(ft in kinds for ft in file_types)] *)
Definition any_type_in (file_types kinds : list string) : bool :=
  existsb (fun ft => Py.mem ft kinds) file_types.

(** The list comprehension
    [[self._get_file_type(path of f) for f in files_to_create]]. *)
Definition file_types_of (p : package) : list string :=
  map (fun f => _get_file_type (get_file_path f)) (get_files_to_create p).

(** [CodingTeam._find_agent_for_package]; [None] is Python's [None]. *)
Definition _find_agent_for_package (agents : list string) (p : package)
  : option string :=
  let agent_name := get_agent p in
  let mapped := mapped_name agent_name in
  if Py.mem mapped agents then Some mapped
  else
    let file_types := file_types_of p in
    if any_type_in file_types ["python"; "api"] then
      agents_get agents "backend_specialist"
    else if any_type_in file_types ["html"; "css"; "javascript"] then
      agents_get agents "frontend_specialist"
    else if any_type_in file_types ["ml"; "data"] then
      agents_get agents "ml_specialist"
    else if any_type_in file_types ["docker"; "deploy"] then
      agents_get agents "devops_specialist"
    else if any_type_in file_types ["test"] then
      agents_get agents "qa_specialist"
    else
      agents_get agents "fullstack_specialist".

(** The keys of [self.agents] after [initialize_team]. *)
Definition team_agents : list string :=
  [ "backend_specialist"; "frontend_specialist"; "fullstack_specialist";
    "ml_specialist"; "devops_specialist"; "qa_specialist";
    "requirements_analyst" ].

(** ** The team and its scheduler *)

(** [class TeamState(Enum)] *)
Inductive TeamState : Type :=
| INITIALIZING | ANALYZING | PLANNING | EXECUTING | COMPLETED | FAILED | BLOCKED.

(** The [self.logger] calls made by the scheduler. [LogBatch] carries the
    batch whose length and ids line 287 prints. *)
Inductive log_event : Type :=
| LogExecuting (total : nat)                      (* info, line 268 *)
| LogBlocked (blocked_ids : list string)          (* error, line 280 *)
| LogBatch (batch : list package)                 (* info, line 287 *)
| LogFinished (completed total : nat)             (* info, line 296 *)
| LogNoAgent (id : string)                        (* error, line 322 *)
| LogCompleted (id : string) (agent_name : string) (* info, line 330 *)
| LogFailed (id : string).                        (* error, line 333 *)

(** The attributes of [CodingTeam] the scheduler reads or writes.
    [log] is in chronological order. [dispatched] counts the calls of
    [_execute_single_package] made so far; nothing but the worker oracle
    reads it. *)
Record CodingTeam : Type := mkTeam {
  batch_processing_size : Z;
  state : TeamState;
  agents : list string;
  work_packages : list package;
  completed_packages : list string;
  log : list log_event;
  dispatched : nat
}.

Definition set_state (s : TeamState) (t : CodingTeam) : CodingTeam :=
  mkTeam (batch_processing_size t) s (agents t) (work_packages t)
         (completed_packages t) (log t) (dispatched t).

Definition set_work_packages (ps : list package) (t : CodingTeam) : CodingTeam :=
  mkTeam (batch_processing_size t) (state t) (agents t) ps
         (completed_packages t) (log t) (dispatched t).

(** [self.logger.info(...)] / [self.logger.error(...)] *)
Definition logger (e : log_event) (t : CodingTeam) : CodingTeam :=
  mkTeam (batch_processing_size t) (state t) (agents t) (work_packages t)
         (completed_packages t) (log t ++ [e]) (dispatched t).

(** [self.completed_packages.append(package_id)] *)
Definition completed_append (id : string) (t : CodingTeam) : CodingTeam :=
  mkTeam (batch_processing_size t) (state t) (agents t) (work_packages t)
         (completed_packages t ++ [id]) (log t) (dispatched t).

Definition tick (t : CodingTeam) : CodingTeam :=
  mkTeam (batch_processing_size t) (state t) (agents t) (work_packages t)
         (completed_packages t) (log t) (S (dispatched t)).

(** [CodingTeam.__init__] followed by [initialize_team], as far as the
    scheduler is concerned. *)
Definition new_team (batch_size : Z) : CodingTeam :=
  mkTeam batch_size INITIALIZING team_agents [] [] [] 0.

(** What awaiting [agent.execute_step(...)] does. *)
Inductive outcome : Type :=
| Returns        (* the call returns *)
| Raises         (* the call raises an [Exception] *)
| NeverReturns.  (* the awaited call never completes *)

(** The workers: the outcome of the [n]-th dispatch, made to [agent_name]
    with package [p]. *)
Definition worker : Type := nat -> string -> package -> outcome.

(** The body of the [for] loop of [_get_available_packages]. *)
Fixpoint available_from (completed : list string) (ps : list package)
  : list package :=
  match ps with
  | [] => []
  | p :: rest =>
      if Py.mem (package_id p) completed then available_from completed rest
      else if forallb (fun dep => Py.mem dep completed) (get_dependencies p)
           then p :: available_from completed rest
           else available_from completed rest
  end.

(** [CodingTeam._get_available_packages] *)
Definition _get_available_packages (t : CodingTeam) : list package :=
  available_from (completed_packages t) (work_packages t).

(** [CodingTeam._execute_single_package]. The boolean tells whether the
    coroutine finishes. *)
Definition _execute_single_package (w : worker) (t : CodingTeam) (p : package)
  : CodingTeam * bool :=
  let id := package_id p in
  let n := dispatched t in
  let t := tick t in
  match _find_agent_for_package (agents t) p with
  | None => (logger (LogNoAgent id) t, true)
  | Some a =>
      match w n a p with
      | Returns => (logger (LogCompleted id a) (completed_append id t), true)
      | Raises => (logger (LogFailed id) t, true)
      | NeverReturns => (t, false)
      end
  end.

(** [await asyncio.gather] with [return_exceptions=True] over the tasks
    [_execute_single_package(package) for package in batch]. The tasks
    touch the team only by appending to [completed_packages] and to the
    log, and the scheduler reads [completed_packages] only through [in]
    and [len], so the tasks are run in batch order. The boolean tells
    whether every task finishes, that is, whether the [await] returns. *)
Fixpoint gather (w : worker) (t : CodingTeam) (batch : list package)
  : CodingTeam * bool :=
  match batch with
  | [] => (t, true)
  | p :: rest =>
      let (t1, fin1) := _execute_single_package w t p in
      let (t2, fin2) := gather w t1 rest in
      (t2, fin1 && fin2)
  end.

(** How a call of the scheduler ends. *)
Inductive result : Type :=
| Returned (t : CodingTeam)     (* the call returns *)
| Awaiting (t : CodingTeam)     (* stuck in an [await] that never returns *)
| OutOfFuel (t : CodingTeam).   (* still looping when the fuel ran out *)

Definition team_of (r : result) : CodingTeam :=
  match r with Returned t | Awaiting t | OutOfFuel t => t end.

(** The list comprehension of line 279. *)
Definition blocked_packages (t : CodingTeam) : list package :=
  filter (fun wp => negb (Py.mem (package_id wp) (completed_packages t)))
         (work_packages t).

(** The [while] loop of [execute_work_packages]; [fuel] bounds the number
    of executions of its body. *)
Fixpoint execute_loop (w : worker) (fuel : nat) (t : CodingTeam) : result :=
  if (List.length (completed_packages t) <? List.length (work_packages t))%nat then
    match fuel with
    | O => OutOfFuel t
    | S fuel' =>
        let available_packages := _get_available_packages t in
        match available_packages with
        | [] =>
            Returned (logger (LogBlocked (map package_id (blocked_packages t))) t)
        | _ :: _ =>
            let batch_size :=
              Z.min (Z.of_nat (List.length available_packages))
                    (batch_processing_size t) in
            let batch := Py.slice_to available_packages batch_size in
            let t1 := logger (LogBatch batch) t in
            match gather w t1 batch with
            | (t2, true) => execute_loop w fuel' t2
            | (t2, false) => Awaiting t2
            end
        end
    end
  else Returned t.

(** [CodingTeam.execute_work_packages] *)
Definition execute_work_packages (w : worker) (fuel : nat) (t : CodingTeam)
  : result :=
  let t := set_state EXECUTING t in
  let t := logger (LogExecuting (List.length (work_packages t))) t in
  match execute_loop w fuel t with
  | Returned t' =>
      Returned (logger (LogFinished (List.length (completed_packages t'))
                                    (List.length (work_packages t'))) t')
  | r => r
  end.

(** ** The Smart Coding Agent's execution of a work package *)

(** An awaited external call: it returns a value or raises. *)
Inductive io (A : Type) : Type :=
| Ret (a : A)
| Exn.
Arguments Ret {A} a.
Arguments Exn {A}.

(** The collaborators of [execute_work_package]: the progress signals,
    the generation of the content of the file at position [i] of the
    package, and the writing of a file. *)
Record agent_env : Type := mkEnv {
  signal_step_start : io unit;
  generate_file_content : nat -> string -> io string;
  write_file : string -> string -> io bool;
  signal_step_success : io unit;
  fail_current_step : io unit
}.

(** What the agent logs or reports while executing a package. *)
Inductive agent_event : Type :=
| FileCreated (path : string)           (* logger.info *)
| FileNotCreated (path : string)        (* logger.error *)
| NoContent (path : string)             (* logger.warning *)
| ReportProgress (id : string) (files : nat)  (* report_progress *)
| ReportBlocker (id : string).                (* report_blocker *)

(** The attributes of [SmartCodingAgent] that [execute_work_package]
    writes. *)
Record SmartCodingAgent : Type := mkAgent {
  agent_completed_packages : list string;
  agent_log : list agent_event
}.

(** The [for] loop over [files_to_create]: the created files and the
    events so far, and whether the loop ran to its end ([true]) or a
    collaborator raised ([false]). *)
Fixpoint create_files (env : agent_env) (i : nat) (files : list file_spec)
  (created_files : list string) (events : list agent_event)
  : list string * list agent_event * bool :=
  match files with
  | [] => (created_files, events, true)
  | f :: rest =>
      match file_path f with
      | Some (String c path') =>
          let path := String c path' in
          match generate_file_content env i path with
          | Exn => (created_files, events, false)
          | Ret EmptyString =>
              create_files env (S i) rest created_files
                           (events ++ [NoContent path])
          | Ret file_content =>
              match write_file env path file_content with
              | Exn => (created_files, events, false)
              | Ret true =>
                  create_files env (S i) rest (created_files ++ [path])
                               (events ++ [FileCreated path])
              | Ret false =>
                  create_files env (S i) rest created_files
                               (events ++ [FileNotCreated path])
              end
          end
      | _ => create_files env (S i) rest created_files events
      end
  end.

(** The [except Exception] handler of [execute_work_package]. *)
Definition handle_exception (env : agent_env) (id : string)
  (a : SmartCodingAgent) : SmartCodingAgent * bool :=
  let a' := mkAgent (agent_completed_packages a)
                    (agent_log a ++ [ReportBlocker id]) in
  match fail_current_step env with
  | Ret _ => (a', true)
  | Exn => (a', false)
  end.

(** [SmartCodingAgent.execute_work_package]. The boolean tells whether
    the call returns; otherwise it raises. *)
Definition execute_work_package (env : agent_env) (a : SmartCodingAgent)
  (work_package : package) : SmartCodingAgent * bool :=
  let id := package_id work_package in
  match signal_step_start env with
  | Exn => (a, false)
  | Ret _ =>
      match create_files env 0 (get_files_to_create work_package) []
                         (agent_log a) with
      | (_, events, false) =>
          handle_exception env id (mkAgent (agent_completed_packages a) events)
      | (created_files, events, true) =>
          let a1 := mkAgent (agent_completed_packages a ++ [id])
                            (events ++ [ReportProgress id
                                          (List.length created_files)]) in
          match signal_step_success env with
          | Ret _ => (a1, true)
          | Exn => handle_exception env id a1
          end
      end
  end.

(** [SmartCodingAgent.execute_step] on a step that carries a work
    package, seen from the team as a worker. *)
Definition agent_worker (env : agent_env) (a : SmartCodingAgent) : worker :=
  fun _ _ p =>
    if snd (execute_work_package env a p) then Returns else Raises.

(** ** Analysis and report *)

(** [analyze_problem_systematically], given the work packages the
    Principle Engineer produced: [None] is the raised [Exception]. *)
Definition analyze_problem_systematically
  (planned : list package) (t : CodingTeam) : option CodingTeam :=
  let t := set_state ANALYZING t in
  let t := set_work_packages planned t in
  match work_packages t with
  | [] => None
  | _ :: _ => Some t
  end.

(** What the report takes from collaborators other than the scheduler
    and the agents, passed through as they are: the Principle Engineer's
    design summary, the readings of the clock and the statistics of the
    workspace. *)
Record report_externals : Type := mkExternals {
  problem_analysis : string;
  start_time : nat;
  end_time : nat;
  total_files_planned : nat;
  workspace_statistics : string;
  complexity_assessment : string
}.

(** An agent object that has [get_completion_status]: a Smart Coding
    Agent with the name and the specialization it was built with. *)
Record agent_object : Type := mkObject {
  object_name : string;
  object_specialization : string;
  object_state : SmartCodingAgent
}.

(** The dict of [SmartCodingAgent.get_completion_status]. *)
Record completion_status : Type := mkCompletion {
  status_agent : string;
  status_specialization : string;
  status_completed_packages : list string;
  total_completed : nat
}.

(** [SmartCodingAgent.get_completion_status] *)
Definition get_completion_status (o : agent_object) : completion_status :=
  mkCompletion (object_name o)
               (object_specialization o)
               (agent_completed_packages (object_state o))
               (List.length (agent_completed_packages (object_state o))).

(** The entries of the report of [generate_final_report]. Two entries
    of the dict are functions of entries kept here and are left out:
    [success_rate], the float [completed / total * 100] (0 without
    packages), and [duration_seconds], the difference of the two times;
    so two reports are equal exactly when their records are.
    [escalation_count] is an attribute the team sets to 0 and never
    changes. *)
Record report : Type := mkReport {
  final_state : TeamState;
  total : nat;
  completed : nat;
  files_created : nat;
  artifacts : list (option string);
  agents_used : nat;
  agent_status : list (string * completion_status);
  escalation_count : nat;
  externals : report_externals
}.

(** The loop "Collect all artifacts" of [generate_final_report]. *)
Definition collect_artifacts (t : CodingTeam) : list (option string) :=
  flat_map
    (fun p =>
       if Py.mem (package_id p) (completed_packages t)
       then map file_path (get_files_to_create p)
       else [])
    (work_packages t).

(** The loop "Get completion status from all agents" of
    [generate_final_report]. [objects name] is the object registered
    under [name] when it has [get_completion_status], as the Smart
    Coding Agents do and the Requirements Analyst does not. *)
Definition collect_agent_status
  (objects : string -> option agent_object) (t : CodingTeam)
  : list (string * completion_status) :=
  flat_map
    (fun name =>
       match objects name with
       | Some o => [(name, get_completion_status o)]
       | None => []
       end)
    (agents t).

(** [CodingTeam.generate_final_report], given what the other
    collaborators supply and the agent objects as they are then. *)
Definition generate_final_report
  (ext : report_externals) (objects : string -> option agent_object)
  (t : CodingTeam) : report :=
  let agent_status := collect_agent_status objects t in
  let artifacts := collect_artifacts t in
  mkReport (state t)
           (List.length (work_packages t))
           (List.length (completed_packages t))
           (List.length artifacts)
           artifacts
           (List.length
              (filter (fun a => (0 <? total_completed (snd a))%nat)
                      agent_status))
           agent_status
           0
           ext.

(** Steps 1 to 3 of [solve_problem]: analysis, execution, report.
    [Error] is the exception of the analysis step. *)
Inductive solved : Type :=
| Error
| Report (r : report) (t : CodingTeam)
| NoReport (r : result).

Definition solve_problem (w : worker) (fuel : nat)
  (ext : report_externals) (objects : string -> option agent_object)
  (planned : list package) (t : CodingTeam) : solved :=
  let t := set_state ANALYZING t in
  match analyze_problem_systematically planned t with
  | None => Error
  | Some t1 =>
      match execute_work_packages w fuel t1 with
      | Returned t2 =>
          let final_report := generate_final_report ext objects t2 in
          Report final_report (set_state COMPLETED t2)
      | r => NoReport r
      end
  end.
(** ** Vocabulary of the statements *)

(** Some file of the package has a type among [kinds]. *)
Definition hinted (p : package) (kinds : list string) : Prop :=
  exists f, In f (get_files_to_create p) /\
            In (_get_file_type (get_file_path f)) kinds.

(** The tag of [p], after the alias mapping, names no registered agent. *)
Definition unregistered (agents : list string) (p : package) : Prop :=
  ~ In (mapped_name (get_agent p)) agents.

(** The lower-cased path mentions [test] or [spec]. *)
Definition test_like (path : string) : Prop :=
  Py.contains (Py.lower path) "test" = true \/
  Py.contains (Py.lower path) "spec" = true.

(** The ids the log reports as completed, in order. *)
Definition completed_of (l : list log_event) : list string :=
  flat_map (fun e => match e with LogCompleted id _ => [id] | _ => [] end) l.

(** The packages of all batches the log reports, in order of dispatch. *)
Definition dispatched_of (l : list log_event) : list package :=
  flat_map (fun e => match e with LogBatch batch => batch | _ => [] end) l.

(** How many times a package with id [id] was dispatched. *)
Definition dispatch_count (id : string) (l : list log_event) : nat :=
  List.length (filter (fun p => String.eqb (package_id p) id) (dispatched_of l)).

(** A team on which no run has started: nothing completed, nothing logged. *)
Definition fresh (t : CodingTeam) : Prop :=
  completed_packages t = [] /\ log t = [].

(** What holds of the event [e] logged after the events [before]:
    a batch holds only packages of the run that are not yet completed and
    whose dependencies are all completed; a completion is that of a
    package of an earlier batch whose worker returned. *)
Definition event_ok (w : worker) (pkgs : list package)
  (before : list log_event) (e : log_event) : Prop :=
  match e with
  | LogBatch batch =>
      forall P, In P batch ->
        In P pkgs
        /\ ~ In (package_id P) (completed_of before)
        /\ (forall d, In d (get_dependencies P) -> In d (completed_of before))
  | LogCompleted id a =>
      exists batch P n,
        In (LogBatch batch) before /\ In P batch /\ package_id P = id
        /\ w n a P = Returns
  | _ => True
  end.

(** The events one task of a batch may log. *)
Definition task_event (w : worker) (p : package) (e : log_event) : Prop :=
  e = LogNoAgent (package_id p) \/ e = LogFailed (package_id p)
  \/ exists a n, e = LogCompleted (package_id p) a /\ w n a p = Returns.

Definition trace_ok (w : worker) (pkgs : list package) (l : list log_event)
  : Prop :=
  forall l1 e l2, l = l1 ++ e :: l2 -> event_ok w pkgs l1 e.

(** The team's list of completed ids is the one its log tells. *)
Definition consistent (w : worker) (t : CodingTeam) : Prop :=
  completed_packages t = completed_of (log t)
  /\ trace_ok w (work_packages t) (log t).

(** The scheduler leaves the configuration alone. *)
Definition frame (t t' : CodingTeam) : Prop :=
  work_packages t' = work_packages t
  /\ agents t' = agents t
  /\ batch_processing_size t' = batch_processing_size t
  /\ state t' = state t.

(** A set of ids that can never complete: every package carrying one of
    them depends on one of them. The ids along a dependency cycle form
    such a set, and so does any id that no package carries. *)
Definition unsatisfiable (pkgs : list package) (S : string -> Prop) : Prop :=
  forall p, In p pkgs -> S (package_id p) ->
    exists d, In d (get_dependencies p) /\ S d.

(** Every worker invocation returns. *)
Definition always_returns (w : worker) : Prop :=
  forall n a p, w n a p = Returns.

(** Every package of the list finds an agent. *)
Definition routable (agents : list string) (pkgs : list package) : Prop :=
  forall p, In p pkgs -> _find_agent_for_package agents p <> None.

(** The dependency graph is acyclic: ids can be ranked so that every
    dependency ranks below the package that declares it. *)
Definition acyclic (pkgs : list package) : Prop :=
  exists rank : string -> nat,
    forall p d, In p pkgs -> In d (get_dependencies p) ->
      (rank d < rank (package_id p))%nat.

(** Every declared dependency is the id of a package of the list. *)
Definition resolvable (pkgs : list package) : Prop :=
  forall p d, In p pkgs -> In d (get_dependencies p) ->
    In d (map package_id pkgs).

(** [p] is in the list [c] of completed ids together with all its
    dependencies. *)
Definition done_ok (c : list string) (p : package) : bool :=
  Py.mem (package_id p) c
  && forallb (fun d => Py.mem d c) (get_dependencies p).

(** There are at least as many such packages as completed ids. *)
Definition counted (t : CodingTeam) : Prop :=
  (List.length (completed_packages t)
   <= List.length (filter (done_ok (completed_packages t)) (work_packages t)))%nat.

(** [s] has, for every test, no more elements passing it than [l]. *)
Definition fewer {A : Type} (s l : list A) : Prop :=
  forall h : A -> bool,
    (List.length (filter h s) <= List.length (filter h l))%nat.

(** A bound on the number of loop iterations still to come when every
    dispatched package completes. *)
Definition iterations_left (t : CodingTeam) : nat :=
  Nat.min (S (List.length (blocked_packages t)))
          (List.length (work_packages t) - List.length (completed_packages t)).

(** The team as [execute_work_packages] hands it to its loop. *)
Definition run_start (t : CodingTeam) : CodingTeam :=
  logger (LogExecuting (List.length (work_packages t))) (set_state EXECUTING t).

(** ** Sample packages, teams and workers *)

(** A package with an id and dependencies, no tag and no files. *)
Definition pk (id : string) (deps : list string) : package :=
  mkPackage id None None (Some deps).

(** A new team that was given its work packages. *)
Definition team_with (batch_size : Z) (pkgs : list package) : CodingTeam :=
  set_work_packages pkgs (new_team batch_size).

(** The diamond [A], [B] and [C] after [A], [D] after [B] and [C]. *)
Definition diamond : list package :=
  [pk "A" []; pk "B" ["A"]; pk "C" ["A"]; pk "D" ["B"; "C"]].

(** Workers that always return, always raise, raise on the first dispatch
    only, or never return on the package of a given id. *)
Definition reliable : worker := fun _ _ _ => Returns.
Definition unreliable : worker := fun _ _ _ => Raises.
Definition flaky : worker :=
  fun n _ _ => match n with O => Raises | S _ => Returns end.


(** ** Status of the team *)

(** The entries of the dict of [CodingTeam.get_status] that are computed
    from the scheduler's state; [remaining] is a Python integer
    difference. *)
Module Status.
Record t : Type := mk {
  state : TeamState;
  smart_agents_count : nat;
  total : nat;
  completed : nat;
  remaining : Z;
  batch_processing : bool
}.
End Status.

(** [CodingTeam.get_status] *)
Definition get_status (t : CodingTeam) : Status.t :=
  Status.mk (state t)
            (List.length (agents t))
            (List.length (work_packages t))
            (List.length (completed_packages t))
            (Z.of_nat (List.length (work_packages t))
             - Z.of_nat (List.length (completed_packages t)))%Z
            (1 <? batch_processing_size t)%Z.

(** The values [_get_file_type] can return. *)
Definition file_type_names : list string :=
  [ "unknown"; "test"; "python"; "javascript"; "html"; "css"; "config";
    "deploy"; "ml"; "api"; "generic" ].

(** The six specialists [_find_agent_for_package] may fall back to. *)
Definition specialists : list string :=
  [ "backend_specialist"; "frontend_specialist"; "ml_specialist";
    "devops_specialist"; "qa_specialist"; "fullstack_specialist" ].

(** ** The Principle Engineer's view of the work packages *)

(** [PrincipleSoftwareEngineer.get_next_available_package]: the [for]
    loop with its [continue] and its [return]. *)
Fixpoint get_next_available_package
  (work_packages : list package) (completed_packages : list string)
  : option package :=
  match work_packages with
  | [] => None
  | p :: rest =>
      if Py.mem (package_id p) completed_packages
      then get_next_available_package rest completed_packages
      else if forallb (fun dep => Py.mem dep completed_packages)
                      (get_dependencies p)
           then Some p
           else get_next_available_package rest completed_packages
  end.

(** [wp.get("agent") == agent_name]: an absent key gives [None], which
    equals no string. *)
Definition agent_is (agent_name : string) (wp : package) : bool :=
  match agent wp with
  | Some a => String.eqb a agent_name
  | None => false
  end.

(** [PrincipleSoftwareEngineer.get_work_package_by_agent] *)
Definition get_work_package_by_agent
  (work_packages : list package) (agent_name : string) : list package :=
  filter (agent_is agent_name) work_packages.

(** ** The Smart Coding Agent's file types *)

(** [s.split(sep)] for a separator of one character: never empty. *)
Fixpoint split (sep : ascii) (s : string) : list string :=
  match s with
  | EmptyString => [EmptyString]
  | String c t =>
      if Ascii.eqb c sep then EmptyString :: split sep t
      else match split sep t with
           | h :: r => String c h :: r
           | [] => [String c EmptyString]
           end
  end.

(** The local dict [type_mapping] of [_determine_file_type]. *)
Definition type_mapping : list (string * string) :=
  [ ("py", "python"); ("js", "javascript"); ("ts", "javascript");
    ("html", "html"); ("htm", "html");
    ("css", "css"); ("scss", "css"); ("sass", "css");
    ("md", "markdown"); ("rst", "markdown");
    ("json", "json"); ("yaml", "yaml"); ("yml", "yaml");
    ("xml", "xml"); ("txt", "text") ].

(** [file_path.split('.')[-1].lower()] *)
Definition extension_of (file_path : string) : string :=
  Py.lower (last (split "." file_path) EmptyString).

(** [SmartCodingAgent._determine_file_type] *)
Definition _determine_file_type (file_path : string) : string :=
  let extension := extension_of file_path in
  match Py.dict_get type_mapping extension with
  | Some ty => ty
  | None => "generic"
  end.

(** The string has no dot. *)
Definition dotless (s : string) : Prop :=
  Py.contains s "." = false.

(** ** Project plans ([src/project/project_plan.py]) *)

Module ProjectPlan.

(** [class StepStatus(Enum)] *)
Inductive StepStatus : Type :=
| PENDING | IN_PROGRESS | COMPLETED | BLOCKED | FAILED.

Definition status_eqb (a b : StepStatus) : bool :=
  match a, b with
  | PENDING, PENDING | IN_PROGRESS, IN_PROGRESS | COMPLETED, COMPLETED
  | BLOCKED, BLOCKED | FAILED, FAILED => true
  | _, _ => false
  end.

(** [d[k] = v] on a dict given as an association list. *)
Fixpoint dict_set (d : list (string * string)) (k v : string)
  : list (string * string) :=
  match d with
  | [] => [(k, v)]
  | (k', v') :: d' =>
      if String.eqb k' k then (k', v) :: d' else (k', v') :: dict_set d' k v
  end.

(** [class ProjectStep]; times are readings of the clock. *)
Record ProjectStep : Type := mkStep {
  step_id : string;
  name : string;
  description : string;
  owner : string;
  assisting_agents : list string;
  dependencies : list string;
  deliverables : list string;
  acceptance_criteria : list string;
  status : StepStatus;
  start_time : option nat;
  end_time : option nat;
  artifacts : list string;
  metadata : list (string * string)
}.

(** [ProjectStep.start_step] at clock reading [now]. *)
Definition start_step (now : nat) (s : ProjectStep) : ProjectStep :=
  mkStep (step_id s) (name s) (description s) (owner s) (assisting_agents s)
         (dependencies s) (deliverables s) (acceptance_criteria s)
         IN_PROGRESS (Some now) (end_time s) (artifacts s) (metadata s).

(** [ProjectStep.complete_step]; [None] and the empty list are both
    falsy, so neither extends [artifacts]. *)
Definition complete_step (now : nat) (new_artifacts : option (list string))
  (s : ProjectStep) : ProjectStep :=
  mkStep (step_id s) (name s) (description s) (owner s) (assisting_agents s)
         (dependencies s) (deliverables s) (acceptance_criteria s)
         COMPLETED (start_time s) (Some now)
         (match new_artifacts with
          | Some (a :: l) => artifacts s ++ a :: l
          | _ => artifacts s
          end)
         (metadata s).

(** [ProjectStep.block_step] *)
Definition block_step (reason : string) (s : ProjectStep) : ProjectStep :=
  mkStep (step_id s) (name s) (description s) (owner s) (assisting_agents s)
         (dependencies s) (deliverables s) (acceptance_criteria s)
         BLOCKED (start_time s) (end_time s) (artifacts s)
         (dict_set (metadata s) "block_reason" reason).

(** [ProjectStep.fail_step] *)
Definition fail_step (reason : string) (s : ProjectStep) : ProjectStep :=
  mkStep (step_id s) (name s) (description s) (owner s) (assisting_agents s)
         (dependencies s) (deliverables s) (acceptance_criteria s)
         FAILED (start_time s) (end_time s) (artifacts s)
         (dict_set (metadata s) "failure_reason" reason).

(** [class ProjectPlan] *)
Record plan : Type := mkPlan {
  project_name : string;
  plan_description : string;
  steps : list ProjectStep
}.

(** [ProjectPlan.add_step] *)
Definition add_step (s : ProjectStep) (p : plan) : plan :=
  mkPlan (project_name p) (plan_description p) (steps p ++ [s]).

(** The [for] loop of [get_step_by_id]. *)
Fixpoint find_step (l : list ProjectStep) (id : string) : option ProjectStep :=
  match l with
  | [] => None
  | s :: rest => if String.eqb (step_id s) id then Some s else find_step rest id
  end.

(** [ProjectPlan.get_step_by_id] *)
Definition get_step_by_id (p : plan) (id : string) : option ProjectStep :=
  find_step (steps p) id.

(** A value, or the [AttributeError] of reading [.status] of [None]. *)
Inductive result (A : Type) : Type :=
| AttributeError
| Ok (a : A).
Arguments AttributeError {A}.
Arguments Ok {A} a.

(** [all(self.get_step_by_id(dep_id).status == StepStatus.COMPLETED
        for dep_id in step.dependencies)]: the generator is consumed
    from the left and [all] stops at the first false. *)
Fixpoint dependencies_met (p : plan) (deps : list string) : result bool :=
  match deps with
  | [] => Ok true
  | dep_id :: rest =>
      match get_step_by_id p dep_id with
      | None => AttributeError
      | Some s =>
          if status_eqb (status s) COMPLETED then dependencies_met p rest
          else Ok false
      end
  end.

(** The [for] loop of [get_next_step], giving the position of the step
    it returns. *)
Fixpoint next_step_from (p : plan) (l : list ProjectStep) (i : nat)
  : result (option nat) :=
  match l with
  | [] => Ok None
  | s :: rest =>
      if status_eqb (status s) PENDING then
        match dependencies_met p (dependencies s) with
        | AttributeError => AttributeError
        | Ok true => Ok (Some i)
        | Ok false => next_step_from p rest (S i)
        end
      else next_step_from p rest (S i)
  end.

(** The position in [steps] of the object [get_next_step] returns. *)
Definition next_step_index (p : plan) : result (option nat) :=
  next_step_from p (steps p) 0.

(** [ProjectPlan.get_next_step] *)
Definition get_next_step (p : plan) : result (option ProjectStep) :=
  match next_step_index p with
  | AttributeError => AttributeError
  | Ok None => Ok None
  | Ok (Some i) => Ok (nth_error (steps p) i)
  end.

(** [ProjectPlan.get_current_step] *)
Definition get_current_step (p : plan) : option ProjectStep :=
  find (fun s => status_eqb (status s) IN_PROGRESS) (steps p).

(** [ProjectPlan.is_complete] *)
Definition is_complete (p : plan) : bool :=
  forallb (fun s => status_eqb (status s) COMPLETED) (steps p).

(** [sum(1 for step in self.steps if step.status == st)] *)
Definition count_status (st : StepStatus) (p : plan) : nat :=
  List.length (filter (fun s => status_eqb (status s) st) (steps p)).

(** The integer entries of [get_progress_summary]; [progress_percentage]
    is the float [completed_steps / total_steps * 100]. *)
Record summary : Type := mkSummary {
  total_steps : nat;
  completed_steps : nat;
  in_progress_steps : nat;
  blocked_steps : nat;
  failed_steps : nat
}.

(** [ProjectPlan.get_progress_summary] *)
Definition get_progress_summary (p : plan) : summary :=
  mkSummary (List.length (steps p))
            (count_status COMPLETED p)
            (count_status IN_PROGRESS p)
            (count_status BLOCKED p)
            (count_status FAILED p).

(** Mutating the object at position [i] of [steps]. *)
Fixpoint update_nth (i : nat) (f : ProjectStep -> ProjectStep)
  (l : list ProjectStep) : list ProjectStep :=
  match l, i with
  | [], _ => []
  | s :: rest, O => f s :: rest
  | s :: rest, S j => s :: update_nth j f rest
  end.

(** Mutating the object [get_step_by_id] returns: the first step of that
    id. *)
Fixpoint update_first (id : string) (f : ProjectStep -> ProjectStep)
  (l : list ProjectStep) : list ProjectStep :=
  match l with
  | [] => []
  | s :: rest =>
      if String.eqb (step_id s) id then f s :: rest
      else s :: update_first id f rest
  end.

(** The plan part of [LeadSoftwareEngineer.handle_step_completion]: the
    step found by [get_step_by_id], if any, is completed in place. *)
Definition handle_step_completion (now : nat) (id : string)
  (new_artifacts : option (list string)) (p : plan) : plan :=
  mkPlan (project_name p) (plan_description p)
         (update_first id (complete_step now new_artifacts) (steps p)).

(** The plan part of [LeadSoftwareEngineer.handle_step_blocker]. *)
Definition handle_step_blocker (id reason : string) (p : plan) : plan :=
  mkPlan (project_name p) (plan_description p)
         (update_first id (block_step reason) (steps p)).

(** The plan part of [LeadSoftwareEngineer.initiate_next_step]: the step
    [get_next_step] returns, if any, is started in place. *)
Definition initiate_next_step (now : nat) (p : plan) : result plan :=
  match next_step_index p with
  | AttributeError => AttributeError
  | Ok None => Ok p
  | Ok (Some i) =>
      Ok (mkPlan (project_name p) (plan_description p)
                 (update_nth i (start_step now) (steps p)))
  end.

(** Every dependency of every step names a step of the plan. *)
Definition resolved (p : plan) : Prop :=
  forall s d, In s (steps p) -> In d (dependencies s) ->
    get_step_by_id p d <> None.

End ProjectPlan.

(** ** Parsing the model's replies *)

(** [s.find(sub)]: the first index at which [sub] occurs, or [-1]. *)
Fixpoint str_find (s sub : string) : Z :=
  if String.prefix sub s then 0%Z
  else match s with
       | EmptyString => (-1)%Z
       | String _ t =>
           let r := str_find t sub in
           if (r <? 0)%Z then (-1)%Z else (r + 1)%Z
       end.

(** [s.rfind(sub)]: the last index at which [sub] occurs, or [-1]. *)
Fixpoint str_rfind (s sub : string) : Z :=
  match s with
  | EmptyString => if String.prefix sub EmptyString then 0%Z else (-1)%Z
  | String _ t =>
      let r := str_rfind t sub in
      if (0 <=? r)%Z then (r + 1)%Z
      else if String.prefix sub s then 0%Z else (-1)%Z
  end.

(** A slice bound of either sign, brought into [0 .. len]. *)
Definition slice_bound (len : nat) (i : Z) : nat :=
  if (i <? 0)%Z then Z.to_nat (Z.max (i + Z.of_nat len) 0)
  else Nat.min (Z.to_nat i) len.

(** [s[start:stop]] *)
Definition str_slice (s : string) (start stop : Z) : string :=
  let a := slice_bound (String.length s) start in
  let b := slice_bound (String.length s) stop in
  String.substring a (b - a) s.

(** What [_parse_json_response] is given: a dict, with or without the
    key [content], or another object with its [str]. *)
Inductive response : Type :=
| RespDict (content : option string)
| RespOther (str : string).

Section ParseJson.

(** The JSON values and [json.loads]; [None] is its [JSONDecodeError]. *)
Variable J : Type.
Variable loads : string -> option J.

(** The dict given back as it is, a parsed value, or the error of
    [json.loads]. *)
Inductive parsed : Type :=
| TheResponse
| Parsed (j : J)
| JSONDecodeError.

Definition json_loads (s : string) : parsed :=
  match loads s with
  | Some j => Parsed j
  | None => JSONDecodeError
  end.

(** [PrincipleSoftwareEngineer._parse_json_response] *)
Definition _parse_json_response (r : response) : parsed :=
  let parse content :=
    if Py.contains content "{" && Py.contains content "}" then
      let start := str_find content "{" in
      let stop := (str_rfind content "}" + 1)%Z in
      let json_str := str_slice content start stop in
      json_loads json_str
    else json_loads content
  in
  match r with
  | RespDict (Some content) => parse content
  | RespDict None => TheResponse
  | RespOther str => parse str
  end.

End ParseJson.

Arguments TheResponse {J}.
Arguments Parsed {J} j.
Arguments JSONDecodeError {J}.

(** ** Extracting code from the model's replies *)

(** [c.isspace()] on one ASCII character: tab to carriage return, the
    four separators [0x1c] to [0x1f], and the space. *)
Definition is_space (c : ascii) : bool :=
  let n := nat_of_ascii c in
  (((9 <=? n) && (n <=? 13)) || ((28 <=? n) && (n <=? 32)))%nat.

(** [s.lstrip()] *)
Fixpoint lstrip (s : string) : string :=
  match s with
  | EmptyString => EmptyString
  | String c t => if is_space c then lstrip t else s
  end.

(** [s.rstrip()] *)
Fixpoint rstrip (s : string) : string :=
  match s with
  | EmptyString => EmptyString
  | String c t =>
      match rstrip t with
      | EmptyString => if is_space c then EmptyString else String c EmptyString
      | t' => String c t'
      end
  end.

(** [s.strip()] *)
Definition strip (s : string) : string := lstrip (rstrip s).

(** The line feed. *)
Definition newline : ascii := ascii_of_nat 10.

(** [sep.join(l)] for a separator of one character. *)
Fixpoint join (sep : ascii) (l : list string) : string :=
  match l with
  | [] => EmptyString
  | [x] => x
  | x :: r => (x ++ String sep (join sep r))%string
  end.

(** The three backquotes that open and close a code block. *)
Definition fence : string :=
  String (ascii_of_nat 96) (String (ascii_of_nat 96)
    (String (ascii_of_nat 96) EmptyString)).

(** [line.strip().startswith(fence)] *)
Definition is_fence (line : string) : bool :=
  String.prefix fence (strip line).

(** The [for] loop of [_extract_code_from_response] over
    [enumerate(lines)], from index [i]: the final [start_idx] and
    [end_idx]. *)
Fixpoint scan_fences (lines : list string) (i : nat) (start_idx : option nat)
  : option nat * option nat :=
  match lines with
  | [] => (start_idx, None)
  | line :: rest =>
      if is_fence line then
        match start_idx with
        | None => scan_fences rest (S i) (Some (S i))
        | Some _ => (start_idx, Some i)
        end
      else scan_fences rest (S i) start_idx
  end.

(** [response.get('content', str(response))] for a dict whose [str] is
    [dict_str], and [str(response)] for another object. *)
Definition text_of (dict_str : string) (r : response) : string :=
  match r with
  | RespDict (Some content) => content
  | RespDict None => dict_str
  | RespOther str => str
  end.

(** [SmartCodingAgent._extract_code_from_response] *)
Definition _extract_code_from_response (dict_str : string) (r : response)
  : string :=
  let content := text_of dict_str r in
  let content :=
    if Py.contains content fence then
      let lines := split newline content in
      match scan_fences lines 0 None with
      | (Some start_idx, Some end_idx) =>
          join newline (skipn start_idx (firstn end_idx lines))
      | (Some start_idx, None) => join newline (skipn start_idx lines)
      | (None, _) => content
      end
    else content in
  strip content.

(** ** More samples *)

(** A package with a tag and one planned file. *)
Definition pk_file (id tag path : string) : package :=
  mkPackage id (Some tag) (Some [mkFile (Some path)]) (Some []).

(** A pending step with an id and dependencies. *)
Definition step (id : string) (deps : list string) : ProjectPlan.ProjectStep :=
  ProjectPlan.mkStep id id EmptyString "Owner" [] deps [] []
                     ProjectPlan.PENDING None None [] [].

(** The plan of the repository's test [test_get_next_step]. *)
Definition two_steps : ProjectPlan.plan :=
  ProjectPlan.mkPlan "Test Project" "Test Description"
                     [step "STEP_01" []; step "STEP_02" ["STEP_01"]].

(** Collaborators that all succeed, that refuse every write, and whose
    generation raises. *)
Definition env_ok : agent_env :=
  mkEnv (Ret tt) (fun _ _ => Ret "pass") (fun _ _ => Ret true)
        (Ret tt) (Ret tt).
Definition env_no_write : agent_env :=
  mkEnv (Ret tt) (fun _ _ => Ret "pass") (fun _ _ => Ret false)
        (Ret tt) (Ret tt).
Definition env_gen_raises : agent_env :=
  mkEnv (Ret tt) (fun _ _ => Exn) (fun _ _ => Ret true) (Ret tt) (Ret tt).

(** A new agent. *)
Definition new_agent : SmartCodingAgent := mkAgent [] [].

(** What the design summary, the clock and the workspace may supply. *)
Definition sample_externals : report_externals :=
  mkExternals "analysis" 0 1 1 "statistics" "unknown".

(** ** The agents after a run *)

(** The specializations [initialize_team] builds the six Smart Coding
    Agents with. *)
Definition specialization_of (name : string) : string :=
  if String.eqb name "backend_specialist" then
    "backend development, APIs, databases, server-side logic"
  else if String.eqb name "frontend_specialist" then
    "user interfaces, web development, responsive design, JavaScript"
  else if String.eqb name "fullstack_specialist" then
    "full-stack development, integration, end-to-end solutions"
  else if String.eqb name "ml_specialist" then
    "machine learning, data processing, neural networks, AI models"
  else if String.eqb name "devops_specialist" then
    "deployment, infrastructure, CI/CD, containerization, cloud"
  else if String.eqb name "qa_specialist" then
    "testing, quality assurance, test automation, validation"
  else EmptyString.

(** The packages the run dispatched to the agent [name], in order. *)
Definition dispatched_to (t : CodingTeam) (name : string) : list package :=
  filter
    (fun p =>
       match _find_agent_for_package (agents t) p with
       | Some a => String.eqb a name
       | None => false
       end)
    (dispatched_of (log t)).

(** The agent objects after a run whose workers are the Smart Coding
    Agents with collaborators [env], that is a run with the worker
    [agent_worker env new_agent]: each specialist has executed the
    packages dispatched to it, those of one batch in the order of the
    batch; the Requirements Analyst has no [get_completion_status]. *)
Definition agent_objects_after (env : agent_env) (t : CodingTeam)
  : string -> option agent_object :=
  fun name =>
    if Py.mem name specialists then
      Some (mkObject name (specialization_of name)
              (fold_left (fun a p => fst (execute_work_package env a p))
                         (dispatched_to t name) new_agent))
    else None.

(** * Sample evaluations *)

Example file_type_py : _get_file_type "src/Main.PY" = "python".
Proof. reflexivity. Qed.

Example file_type_test_py : _get_file_type "tests/test_api.py" = "test".
Proof. reflexivity. Qed.

Example file_type_inspect : _get_file_type "src/Inspector.py" = "test".
Proof. reflexivity. Qed.

Example file_type_dockerfile : _get_file_type "Dockerfile" = "deploy".
Proof. reflexivity. Qed.

Example file_type_empty : _get_file_type EmptyString = "unknown".
Proof. reflexivity. Qed.

(** * Routing *)

Section Routing.

Lemma mem_In (x : string) (l : list string) : Py.mem x l = true <-> In x l.
Proof.
  unfold Py.mem. rewrite existsb_exists. split.
  - intros [y [Hy Heq]]. apply String.eqb_eq in Heq. now subst.
  - intros H. exists x. split; [assumption | apply String.eqb_refl].
Qed.

Lemma mem_false_In (x : string) (l : list string) :
  Py.mem x l = false <-> ~ In x l.
Proof.
  rewrite <- mem_In. destruct (Py.mem x l); split; congruence.
Qed.

Lemma agents_get_In (agents : list string) (name : string) :
  In name agents -> agents_get agents name = Some name.
Proof.
  intros H. unfold agents_get. apply mem_In in H. now rewrite H.
Qed.

Lemma any_type_in_hinted (p : package) (kinds : list string) :
  any_type_in (file_types_of p) kinds = true <-> hinted p kinds.
Proof.
  unfold any_type_in, file_types_of, hinted. rewrite existsb_exists. split.
  - intros [ft [Hin Hmem]]. apply in_map_iff in Hin as [f [Hf Hin]].
    exists f. split; [assumption |]. rewrite Hf. now apply mem_In.
  - intros [f [Hin Hk]]. exists (_get_file_type (get_file_path f)). split.
    + apply in_map_iff. now exists f.
    + now apply mem_In.
Qed.

Lemma any_type_in_not_hinted (p : package) (kinds : list string) :
  any_type_in (file_types_of p) kinds = false <-> ~ hinted p kinds.
Proof.
  rewrite <- any_type_in_hinted.
  destruct (any_type_in (file_types_of p) kinds); split; congruence.
Qed.

Lemma get_file_type_test (path : string) :
  test_like path -> _get_file_type path = "test".
Proof.
  intros H. unfold _get_file_type.
  destruct path as [| c path'].
  - destruct H as [H | H]; discriminate H.
  - cbv beta iota delta [Py.falsy].
    assert (Hany : Py.any_in (Py.lower (String c path')) ["test"; "spec"] = true).
    { unfold Py.any_in. cbn [existsb].
      destruct H as [H | H]; rewrite H; [reflexivity | apply orb_true_iff; right; reflexivity]. }
    now rewrite Hany.
Qed.

End Routing.

Section RoutingClaims.

Variable agents : list string.
Variable p : package.

Lemma fallback_unfold :
  unregistered agents p ->
  _find_agent_for_package agents p =
    if any_type_in (file_types_of p) ["python"; "api"] then
      agents_get agents "backend_specialist"
    else if any_type_in (file_types_of p) ["html"; "css"; "javascript"] then
      agents_get agents "frontend_specialist"
    else if any_type_in (file_types_of p) ["ml"; "data"] then
      agents_get agents "ml_specialist"
    else if any_type_in (file_types_of p) ["docker"; "deploy"] then
      agents_get agents "devops_specialist"
    else if any_type_in (file_types_of p) ["test"] then
      agents_get agents "qa_specialist"
    else agents_get agents "fullstack_specialist".
Proof.
  intros H. apply mem_false_In in H.
  unfold _find_agent_for_package. cbv zeta. now rewrite H.
Qed.


(** C8, as the code has it. The primary rule compares the tag character
    for character: a tag that is exactly a registered name, or exactly
    an alias of [agent_mapping] whose target is registered, is routed
    there whatever the files of the package are. *)
Theorem primary_rule_exact (w : string) :
  In w agents ->
  (get_agent p = w /\ Py.dict_get agent_mapping w = None) \/
  Py.dict_get agent_mapping (get_agent p) = Some w ->
  _find_agent_for_package agents p = Some w.
Proof.
  intros Hin Htag.
  assert (Hm : mapped_name (get_agent p) = w).
  { unfold mapped_name. destruct Htag as [[-> Hnone] | Hsome].
    - now rewrite Hnone.
    - now rewrite Hsome. }
  unfold _find_agent_for_package. cbv zeta. rewrite Hm.
  apply mem_In in Hin. now rewrite Hin.
Qed.

(** C10. [_get_file_type] answers [test] for every path whose lower-cased
    form contains [test] or [spec], before any extension is looked at;
    hence a package with an unregistered tag, at least one file, and only
    such files is routed to the QA specialist, not to the backend
    specialist. *)
Theorem test_classification_first :
  unregistered agents p ->
  get_files_to_create p <> [] ->
  (forall f, In f (get_files_to_create p) -> test_like (get_file_path f)) ->
  (forall path, test_like path -> _get_file_type path = "test")
  /\ _find_agent_for_package agents p = agents_get agents "qa_specialist"
  /\ (In "qa_specialist" agents ->
      _find_agent_for_package agents p = Some "qa_specialist"
      /\ _find_agent_for_package agents p <> Some "backend_specialist").
Proof.
  intros Hun Hne Hall.
  assert (Hnot : forall kinds, ~ In "test" kinds ->
                   any_type_in (file_types_of p) kinds = false).
  { intros kinds Hk. apply any_type_in_not_hinted.
    intros [f [Hf Hin]]. apply Hk.
    rewrite <- (get_file_type_test _ (Hall f Hf)). exact Hin. }
  assert (Hyes : any_type_in (file_types_of p) ["test"] = true).
  { apply any_type_in_hinted.
    destruct (get_files_to_create p) as [| f fs] eqn:E; [congruence |].
    exists f. split; [rewrite E; now left |].
    rewrite (get_file_type_test _ (Hall f (or_introl eq_refl))). now left. }
  assert (Hroute : _find_agent_for_package agents p =
                   agents_get agents "qa_specialist").
  { rewrite (fallback_unfold Hun).
    rewrite (Hnot ["python"; "api"]), (Hnot ["html"; "css"; "javascript"]),
      (Hnot ["ml"; "data"]), (Hnot ["docker"; "deploy"]), Hyes;
      [reflexivity | | | |];
      cbn; intros H; repeat destruct H as [H | H]; try discriminate H; exact H. }
  split; [exact get_file_type_test |].
  split; [exact Hroute |].
  intros Hqa. rewrite Hroute, (agents_get_In _ _ Hqa).
  split; [reflexivity | discriminate].
Qed.

End RoutingClaims.


Lemma primary_rule_exact_witness :
  _find_agent_for_package team_agents
    (mkPackage "WP001" (Some "backend_engineer")
               (Some [mkFile (Some "index.html")]) None)
  = Some "backend_specialist".
Proof.
  apply primary_rule_exact.
  - vm_compute. intuition.
  - right. reflexivity.
Defined.

(** C8 as stated fails: a tag that differs from a registered name only in
    letter case is not matched by the primary rule; the files decide. *)
Lemma primary_rule_case_sensitive :
  let p := mkPackage "WP001" (Some "Backend_Specialist")
                     (Some [mkFile (Some "index.html")]) None in
  Py.lower (get_agent p) = "backend_specialist"
  /\ In "backend_specialist" team_agents
  /\ _find_agent_for_package team_agents p = Some "frontend_specialist"
  /\ _find_agent_for_package team_agents p <> Some "backend_specialist".
Proof.
  cbv zeta. split; [reflexivity |]. split; [vm_compute; intuition |].
  split; [reflexivity | vm_compute; discriminate].
Qed.

Lemma test_classification_first_witness :
  let p := mkPackage "WP007" (Some "test_writer")
                     (Some [mkFile (Some "tests/test_api.py")]) None in
  _get_file_type "tests/test_api.py" = "test"
  /\ _find_agent_for_package team_agents p = Some "qa_specialist".
Proof.
  cbv zeta.
  destruct (test_classification_first team_agents
              (mkPackage "WP007" (Some "test_writer")
                         (Some [mkFile (Some "tests/test_api.py")]) None))
    as [Hft [_ Hqa]].
  - unfold unregistered. vm_compute. intuition discriminate.
  - discriminate.
  - intros f [<- | []]. left. reflexivity.
  - split.
    + apply Hft. left. reflexivity.
    + apply Hqa. vm_compute. intuition.
Defined.

(** * The scheduler: readiness, batches and traces *)

Section Lists.

Lemma snoc_split {A : Type} (l l1 l2 : list A) (e x : A) :
  l ++ [e] = l1 ++ x :: l2 ->
  (l2 = [] /\ e = x /\ l = l1) \/
  (exists l2', l2 = l2' ++ [e] /\ l = l1 ++ x :: l2').
Proof.
  intros H. destruct l2 as [| y l2] using rev_ind.
  - left. apply app_inj_tail in H as [-> ->]. auto.
  - right. clear IHl2. exists l2.
    change (l ++ [e] = l1 ++ (x :: l2 ++ [y])) in H.
    rewrite app_comm_cons, app_assoc in H.
    apply app_inj_tail in H as [-> ->]. auto.
Qed.

Lemma available_from_In (c : list string) (ps : list package) (p : package) :
  In p (available_from c ps) <->
  In p ps /\ ~ In (package_id p) c
  /\ (forall d, In d (get_dependencies p) -> In d c).
Proof.
  induction ps as [| q ps IH]; cbn [available_from].
  - cbn. tauto.
  - destruct (Py.mem (package_id q) c) eqn:Eid.
    + apply mem_In in Eid. rewrite IH. cbn [In]. split.
      * tauto.
      * intros [[-> | Hin] [Hn Hd]]; [contradiction | tauto].
    + apply mem_false_In in Eid.
      destruct (forallb (fun dep => Py.mem dep c) (get_dependencies q)) eqn:Edep.
      * rewrite forallb_forall in Edep. cbn [In]. rewrite IH. split.
        -- intros [-> | H]; [| tauto].
           split; [now left |]. split; [assumption |].
           intros d Hd. apply mem_In. now apply Edep.
        -- tauto.
      * rewrite IH. cbn [In]. split; [tauto |].
        intros [[-> | Hin] [Hn Hd]]; [| tauto].
        exfalso. assert (Hall : forallb (fun dep => Py.mem dep c)
                                  (get_dependencies p) = true).
        { apply forallb_forall. intros d Hin. apply mem_In. now apply Hd. }
        congruence.
Qed.

Lemma firstn_subset {A : Type} (n : nat) (l : list A) (x : A) :
  In x (firstn n l) -> In x l.
Proof.
  revert l. induction n as [| n IH]; intros [| y l]; cbn; try tauto.
  intros [-> | H]; [now left | right; now apply IH].
Qed.

Lemma slice_to_incl {A : Type} (l : list A) (k : Z) (x : A) :
  In x (Py.slice_to l k) -> In x l.
Proof.
  unfold Py.slice_to. destruct (0 <=? k)%Z; apply firstn_subset.
Qed.

Lemma slice_to_head {A : Type} (x : A) (l : list A) (bs : Z) :
  (1 <= bs)%Z ->
  exists rest,
    Py.slice_to (x :: l) (Z.min (Z.of_nat (List.length (x :: l))) bs)
    = x :: rest.
Proof.
  intros Hbs. unfold Py.slice_to.
  set (k := Z.min (Z.of_nat (List.length (x :: l))) bs).
  assert (Hk : (1 <= k)%Z).
  { unfold k. cbn [List.length]. lia. }
  destruct (0 <=? k)%Z eqn:E; [| apply Z.leb_gt in E; lia].
  destruct (Z.to_nat k) as [| n] eqn:En; [lia |].
  cbn [firstn]. eauto.
Qed.

Lemma completed_of_app (l l' : list log_event) :
  completed_of (l ++ l') = completed_of l ++ completed_of l'.
Proof. unfold completed_of. apply flat_map_app. Qed.

Lemma completed_of_In (d : string) (l : list log_event) :
  In d (completed_of l) <-> exists a, In (LogCompleted d a) l.
Proof.
  unfold completed_of. rewrite in_flat_map. split.
  - intros [e [He Hd]]. destruct e; cbn in Hd; try contradiction.
    destruct Hd as [-> | []]. eauto.
  - intros [a Ha]. exists (LogCompleted d a). split; [assumption | now left].
Qed.

Lemma dispatched_of_In (P : package) (l : list log_event) :
  In P (dispatched_of l) <-> exists batch, In (LogBatch batch) l /\ In P batch.
Proof.
  unfold dispatched_of. rewrite in_flat_map. split.
  - intros [e [He HP]]. destruct e; cbn in HP; try contradiction. eauto.
  - intros [batch [Hb HP]]. exists (LogBatch batch). auto.
Qed.

End Lists.

Section Run.

Variable w : worker.

Lemma trace_ok_nil (pkgs : list package) : trace_ok w pkgs [].
Proof. intros [| x l1] e l2 H; discriminate H. Qed.

Lemma trace_ok_snoc (pkgs : list package) (l : list log_event) (e : log_event) :
  trace_ok w pkgs l -> event_ok w pkgs l e -> trace_ok w pkgs (l ++ [e]).
Proof.
  intros Hl He l1 x l2 Heq.
  apply snoc_split in Heq as [[_ [<- <-]] | [l2' [_ ->]]].
  - exact He.
  - now apply (Hl l1 x l2').
Qed.

Lemma trace_ok_prefix (pkgs : list package) (l l' : list log_event) :
  trace_ok w pkgs (l ++ l') -> trace_ok w pkgs l.
Proof.
  intros H l1 e l2 ->. apply (H l1 e (l2 ++ l')).
  now rewrite <- app_assoc.
Qed.

Lemma trace_ok_tasks (pkgs : list package) (batch : list package)
      (evs l : list log_event) :
  trace_ok w pkgs l ->
  In (LogBatch batch) l ->
  (forall e, In e evs -> exists p, In p batch /\ task_event w p e) ->
  trace_ok w pkgs (l ++ evs).
Proof.
  revert l. induction evs as [| e evs IH]; intros l Hl Hb Hev.
  - now rewrite app_nil_r.
  - change (e :: evs) with ([e] ++ evs). rewrite app_assoc. apply IH.
    + apply trace_ok_snoc; [assumption |].
      destruct (Hev e (or_introl eq_refl)) as [p [Hp [-> | [-> | [a [n [-> Hw]]]]]]];
        cbn; auto.
      exists batch, p, n. auto.
    + apply in_or_app. now left.
    + intros e' He'. apply Hev. now right.
Qed.

Lemma frame_refl (t : CodingTeam) : frame t t.
Proof. repeat split. Qed.

Lemma frame_trans {t1 t2 t3 : CodingTeam} :
  frame t1 t2 -> frame t2 t3 -> frame t1 t3.
Proof. unfold frame. intuition congruence. Qed.

(** What one task does to the team. *)
Lemma execute_single_package_spec (t : CodingTeam) (p : package) :
  exists evs,
    log (fst (_execute_single_package w t p)) = log t ++ evs
    /\ completed_packages (fst (_execute_single_package w t p))
       = completed_packages t ++ completed_of evs
    /\ frame t (fst (_execute_single_package w t p))
    /\ dispatched (fst (_execute_single_package w t p)) = S (dispatched t)
    /\ (forall e, In e evs -> task_event w p e).
Proof.
  unfold _execute_single_package. cbv zeta. cbn [tick agents dispatched].
  destruct (_find_agent_for_package (agents t) p) as [a |].
  - destruct (w (dispatched t) a p) eqn:Ew; cbn.
    + exists [LogCompleted (package_id p) a]. repeat split.
      intros e [<- | []]. right. right. eauto.
    + exists [LogFailed (package_id p)]. rewrite app_nil_r. repeat split.
      intros e [<- | []]. right. now left.
    + exists []. rewrite !app_nil_r. repeat split. intros e [].
  - cbn. exists [LogNoAgent (package_id p)]. rewrite app_nil_r. repeat split.
    intros e [<- | []]. now left.
Qed.

(** What a whole batch does to the team. *)
Lemma gather_spec (batch : list package) (t : CodingTeam) :
  exists evs,
    log (fst (gather w t batch)) = log t ++ evs
    /\ completed_packages (fst (gather w t batch))
       = completed_packages t ++ completed_of evs
    /\ frame t (fst (gather w t batch))
    /\ dispatched (fst (gather w t batch))
       = dispatched t + List.length batch
    /\ (forall e, In e evs -> exists p, In p batch /\ task_event w p e).
Proof.
  revert t. induction batch as [| p rest IH]; intros t; cbn [gather].
  - exists []. rewrite !app_nil_r. cbn.
    split; [| split; [| split; [| split]]];
      [reflexivity | reflexivity | apply frame_refl | lia | intros e []].
  - destruct (execute_single_package_spec t p)
      as [ev1 [Hl1 [Hc1 [Hf1 [Hd1 He1]]]]].
    destruct (_execute_single_package w t p) as [t1 fin1]. cbn [fst] in *.
    destruct (IH t1) as [ev2 [Hl2 [Hc2 [Hf2 [Hd2 He2]]]]].
    destruct (gather w t1 rest) as [t2 fin2]. cbn [fst] in *.
    exists (ev1 ++ ev2). split; [| split; [| split; [| split]]].
    + now rewrite Hl2, Hl1, app_assoc.
    + now rewrite Hc2, Hc1, completed_of_app, app_assoc.
    + apply (frame_trans Hf1 Hf2).
    + rewrite Hd2, Hd1. cbn [List.length]. lia.
    + intros e He. apply in_app_or in He as [He | He].
      * exists p. split; [now left | now apply He1].
      * destruct (He2 e He) as [q [Hq Hev]]. exists q. split; [now right | assumption].
Qed.

Lemma gather_consistent (batch : list package) (t : CodingTeam) :
  consistent w t ->
  In (LogBatch batch) (log t) ->
  consistent w (fst (gather w t batch)) /\ frame t (fst (gather w t batch)).
Proof.
  intros [Hc Ht] Hb.
  destruct (gather_spec batch t) as [evs [Hl [Hcp [Hf [_ Hev]]]]].
  split; [| exact Hf]. split.
  - now rewrite Hcp, Hl, completed_of_app, Hc.
  - destruct Hf as [-> _]. rewrite Hl.
    now apply trace_ok_tasks with (batch := batch).
Qed.

Lemma batch_event_ok (t : CodingTeam) (k : Z) :
  consistent w t ->
  event_ok w (work_packages t) (log t)
           (LogBatch (Py.slice_to (_get_available_packages t) k)).
Proof.
  intros [Hc _] P HP. apply slice_to_incl in HP.
  unfold _get_available_packages in HP. apply available_from_In in HP.
  now rewrite <- Hc.
Qed.

Lemma logger_consistent (t : CodingTeam) (e : log_event) :
  consistent w t ->
  event_ok w (work_packages t) (log t) e ->
  completed_of [e] = [] ->
  consistent w (logger e t).
Proof.
  intros [Hc Ht] He Hn. split; cbn [logger completed_packages log work_packages].
  - now rewrite completed_of_app, Hn, app_nil_r.
  - now apply trace_ok_snoc.
Qed.

(** The loop keeps the team consistent with its log. *)
Lemma execute_loop_consistent (fuel : nat) (t : CodingTeam) :
  consistent w t ->
  consistent w (team_of (execute_loop w fuel t))
  /\ frame t (team_of (execute_loop w fuel t)).
Proof.
  revert t. induction fuel as [| fuel IH]; intros t Hc; cbn [execute_loop].
  - destruct (_ <? _)%nat; cbn; auto using frame_refl.
  - destruct (_ <? _)%nat; [| cbn; auto using frame_refl].
    destruct (_get_available_packages t) as [| p0 av] eqn:Eav.
    + cbn [team_of]. split; [| repeat split].
      apply logger_consistent; [assumption | exact I | reflexivity].
    + set (batch := Py.slice_to (p0 :: av) _).
      assert (Hc1 : consistent w (logger (LogBatch batch) t)).
      { apply logger_consistent; [assumption | | reflexivity].
        unfold batch. rewrite <- Eav. now apply batch_event_ok. }
      destruct (gather_consistent batch (logger (LogBatch batch) t) Hc1) as [Hc2 Hf2].
      { cbn. apply in_or_app. right. now left. }
      destruct (gather w (logger (LogBatch batch) t) batch) as [t2 [|]];
        cbn [fst] in *.
      * destruct (IH t2 Hc2) as [Hc3 Hf3]. split; [assumption |].
        apply (frame_trans Hf2 Hf3).
      * cbn [team_of]. split; [assumption | exact Hf2].
Qed.

Lemma execute_work_packages_team (fuel : nat) (t : CodingTeam) :
  team_of (execute_work_packages w fuel t)
  = match execute_loop w fuel
            (logger (LogExecuting (List.length (work_packages t)))
                    (set_state EXECUTING t)) with
    | Returned t' =>
        logger (LogFinished (List.length (completed_packages t'))
                            (List.length (work_packages t'))) t'
    | r => team_of r
    end.
Proof.
  unfold execute_work_packages. cbv zeta. cbn [set_state work_packages].
  now destruct (execute_loop w fuel _).
Qed.

(** A run that starts on a fresh team ends, or is interrupted, on a
    team consistent with its log. *)
Lemma execute_work_packages_consistent (fuel : nat) (t : CodingTeam) :
  fresh t ->
  consistent w (team_of (execute_work_packages w fuel t))
  /\ work_packages (team_of (execute_work_packages w fuel t))
     = work_packages t.
Proof.
  intros [Hc Hl]. rewrite execute_work_packages_team.
  set (t0 := logger _ (set_state EXECUTING t)).
  assert (H0 : consistent w t0).
  { split; cbn; rewrite ?Hc, ?Hl; [reflexivity |].
    apply trace_ok_snoc with (l := []); [apply trace_ok_nil | exact I]. }
  destruct (execute_loop_consistent fuel t0 H0) as [[Hc1 Ht1] [Hw1 _]].
  destruct (execute_loop w fuel t0) as [t' | t' | t']; cbn [team_of] in *;
    try (split; [split |]; assumption).
  split; [| exact Hw1].
  apply logger_consistent; [now split | exact I | reflexivity].
Qed.

End Run.

Section Ordering.

Variable w : worker.

Lemma unsatisfiable_bounded {pkgs : list package} {S : string -> Prop} :
  unsatisfiable pkgs S ->
  forall {n l}, (List.length l <= n)%nat -> trace_ok w pkgs l ->
    forall s, S s -> ~ In s (completed_of l).
Proof.
  intros HS. induction n as [| n IH]; intros l Hlen Hok s Hs Hin.
  - destruct l; [contradiction | cbn in Hlen; lia].
  - apply completed_of_In in Hin as [a Ha].
    apply in_split in Ha as [l1 [l2 ->]].
    destruct (Hok l1 _ l2 eq_refl) as [batch [P [k [Hb [HP [Hid _]]]]]].
    apply in_split in Hb as [l0 [l0' ->]].
    assert (Hok0 : trace_ok w pkgs (l0 ++ LogBatch batch :: l0')).
    { apply trace_ok_prefix with (l' := LogCompleted s a :: l2). exact Hok. }
    destruct (Hok0 l0 _ l0' eq_refl P HP) as [HPin [_ Hdeps]].
    rewrite <- Hid in Hs.
    destruct (HS P HPin Hs) as [d [Hd HSd]].
    apply (IH l0) with (s := d); auto.
    + repeat (rewrite length_app in Hlen; cbn [List.length] in Hlen). lia.
    + apply trace_ok_prefix with (l' := LogBatch batch :: l0'). exact Hok0.
Qed.

(** No id of an unsatisfiable set is ever reported completed. *)
Lemma unsatisfiable_never_completed
      {pkgs : list package} {S : string -> Prop} {l : list log_event} :
  unsatisfiable pkgs S -> trace_ok w pkgs l ->
  forall {s}, S s -> ~ In s (completed_of l).
Proof.
  intros HS Hok. apply (unsatisfiable_bounded HS (le_n (List.length l)) Hok).
Qed.

(** Nor is a package dispatched that carries, or depends on, such an id. *)
Lemma unsatisfiable_never_dispatched
      {pkgs : list package} {S : string -> Prop} {l : list log_event}
      {batch : list package} {P : package} :
  unsatisfiable pkgs S -> trace_ok w pkgs l ->
  In (LogBatch batch) l -> In P batch ->
  ~ S (package_id P) /\ (forall d, In d (get_dependencies P) -> ~ S d).
Proof.
  intros HS Hok Hb HP.
  apply in_split in Hb as [l1 [l2 ->]].
  destruct (Hok l1 _ l2 eq_refl P HP) as [HPin [_ Hdeps]].
  assert (Hok1 : trace_ok w pkgs l1).
  { apply trace_ok_prefix with (l' := LogBatch batch :: l2). exact Hok. }
  assert (Hd : forall d, In d (get_dependencies P) -> ~ S d).
  { intros d Hd HSd.
    apply (unsatisfiable_never_completed HS Hok1 HSd). now apply Hdeps. }
  split; [| exact Hd].
  intros HSP. destruct (HS P HPin HSP) as [d [Hin HSd]]. now apply (Hd d).
Qed.

(** C2. On a run started from a fresh team, whenever a batch is
    dispatched, every dependency [d] of every package [P] of the batch is
    already in the list of completed ids: the log shows, before that
    batch, an earlier batch holding a package of id [d], then the
    completion of [d] by a worker that returned. This holds of every
    batch of every run, finished or not. *)
Theorem dispatch_after_dependencies
        (fuel : nat) (t : CodingTeam) (l1 l2 : list log_event)
        (batch : list package) (P : package) (d : string) :
  fresh t ->
  log (team_of (execute_work_packages w fuel t)) = l1 ++ LogBatch batch :: l2 ->
  In P batch ->
  In d (get_dependencies P) ->
  In d (completed_of l1)
  /\ exists a batch0 Q n la lb lc,
       l1 = la ++ LogBatch batch0 :: lb ++ LogCompleted d a :: lc
       /\ In Q batch0 /\ package_id Q = d /\ w n a Q = Returns.
Proof.
  intros Hfresh Hlog HP Hd.
  destruct (execute_work_packages_consistent w fuel t Hfresh) as [[_ Hok] _].
  rewrite Hlog in Hok.
  destruct (Hok l1 _ l2 eq_refl P HP) as [_ [_ Hdeps]].
  specialize (Hdeps d Hd). split; [exact Hdeps |].
  apply completed_of_In in Hdeps as [a Ha].
  apply in_split in Ha as [lab [lc ->]].
  assert (Hok1 : trace_ok w (work_packages
                   (team_of (execute_work_packages w fuel t)))
                   (lab ++ LogCompleted d a :: lc)).
  { apply trace_ok_prefix with (l' := LogBatch batch :: l2). exact Hok. }
  destruct (Hok1 lab _ lc eq_refl) as [batch0 [Q [n [Hb [HQ [Hid Hw]]]]]].
  apply in_split in Hb as [la [lb ->]].
  exists a, batch0, Q, n, la, lb, lc. rewrite <- app_assoc. auto.
Qed.

(** C1, as the code has it. In a run started on a fresh team, at the end
    of the run or wherever it stands after some number of loop
    iterations: once a package has been reported completed, no package
    with its id is selected into a later batch; and a package that was
    dispatched and whose id is not in the list of completed ids (its
    worker raised or did not return, or no agent was found) is still in
    the list [_get_available_packages] returns, from whose first
    [batch_processing_size] entries the next batch is taken. *)
Theorem completed_never_redispatched (fuel : nat) (t : CodingTeam) :
  fresh t ->
  (forall (l1 l2 l3 : list log_event) (id a : string)
          (batch : list package) (Q : package),
      log (team_of (execute_work_packages w fuel t))
        = l1 ++ LogCompleted id a :: l2 ++ LogBatch batch :: l3 ->
      In Q batch ->
      package_id Q <> id)
  /\ (forall (batch : list package) (Q : package),
      In (LogBatch batch) (log (team_of (execute_work_packages w fuel t))) ->
      In Q batch ->
      ~ In (package_id Q)
           (completed_packages (team_of (execute_work_packages w fuel t))) ->
      In Q (_get_available_packages
              (team_of (execute_work_packages w fuel t)))).
Proof.
  intros Hfresh.
  destruct (execute_work_packages_consistent w fuel t Hfresh)
    as [[Hc Hok] _].
  split.
  - intros l1 l2 l3 id a batch Q Hlog HQ Heq.
    rewrite Hlog in Hok.
    assert (H := Hok (l1 ++ LogCompleted id a :: l2) (LogBatch batch) l3).
    rewrite <- app_assoc in H.
    destruct (H eq_refl Q HQ) as [_ [Hn _]].
    apply Hn. apply completed_of_In. exists a. rewrite Heq.
    apply in_or_app. right. now left.
  - intros batch Q Hb HQ Hn.
    apply in_split in Hb as [l1 [l2 Hlog]].
    destruct (Hok l1 (LogBatch batch) l2 Hlog Q HQ) as [Hin [_ Hdeps]].
    unfold _get_available_packages. apply available_from_In.
    split; [exact Hin |]. split; [exact Hn |].
    intros d Hd. rewrite Hc, Hlog, completed_of_app.
    apply in_or_app. left. now apply Hdeps.
Qed.

End Ordering.

Section Counting.

Lemma fewer_refl {A : Type} (l : list A) : fewer l l.
Proof. intros h. apply le_n. Qed.

Lemma fewer_trans {A : Type} {s m l : list A} :
  fewer s m -> fewer m l -> fewer s l.
Proof. intros H1 H2 h. exact (Nat.le_trans _ _ _ (H1 h) (H2 h)). Qed.

Lemma fewer_skip {A : Type} (x : A) {s l : list A} :
  fewer s l -> fewer s (x :: l).
Proof.
  intros H h. specialize (H h). cbn [filter]. destruct (h x); cbn; lia.
Qed.

Lemma fewer_cons {A : Type} (x : A) {s l : list A} :
  fewer s l -> fewer (x :: s) (x :: l).
Proof.
  intros H h. specialize (H h). cbn [filter]. destruct (h x); cbn; lia.
Qed.

Lemma fewer_nil {A : Type} (l : list A) : fewer [] l.
Proof. intros h. cbn. lia. Qed.

Lemma fewer_firstn {A : Type} (n : nat) (l : list A) : fewer (firstn n l) l.
Proof.
  revert l. induction n as [| n IH]; intros [| x l]; cbn [firstn];
    auto using fewer_nil, fewer_cons.
Qed.

Lemma fewer_slice_to {A : Type} (l : list A) (k : Z) :
  fewer (Py.slice_to l k) l.
Proof. unfold Py.slice_to. destruct (0 <=? k)%Z; apply fewer_firstn. Qed.

Lemma fewer_available (c : list string) (ps : list package) :
  fewer (available_from c ps) ps.
Proof.
  induction ps as [| p ps IH]; cbn [available_from].
  - apply fewer_nil.
  - destruct (Py.mem (package_id p) c); [now apply fewer_skip |].
    destruct (forallb _ _); [now apply fewer_cons | now apply fewer_skip].
Qed.

Lemma filter_all {A : Type} (h : A -> bool) (l : list A) :
  (forall x, In x l -> h x = true) -> filter h l = l.
Proof.
  induction l as [| x l IH]; intros H; cbn [filter]; [reflexivity |].
  rewrite (H x (or_introl eq_refl)), IH; [reflexivity |].
  intros y Hy. apply H. now right.
Qed.

Lemma filter_split {A : Type} (f g : A -> bool) (l : list A) :
  (forall x, f x = true -> g x = true) ->
  (List.length (filter f l)
   + List.length (filter (fun x => g x && negb (f x)) l)
   = List.length (filter g l))%nat.
Proof.
  intros Hfg. induction l as [| x l IH]; cbn [filter]; [reflexivity |].
  destruct (f x) eqn:Ef.
  - rewrite (Hfg x Ef). cbn. lia.
  - destruct (g x); cbn; lia.
Qed.

Lemma filter_length_lt {A : Type} (f f' : A -> bool) (l : list A) (x : A) :
  (forall y, f' y = true -> f y = true) ->
  In x l -> f x = true -> f' x = false ->
  (List.length (filter f' l) < List.length (filter f l))%nat.
Proof.
  intros Hff. induction l as [| y l IH]; intros Hin Hfx Hf'x; [contradiction |].
  assert (Hle : (List.length (filter f' l) <= List.length (filter f l))%nat).
  { clear -Hff. induction l as [| z l IHl]; cbn [filter]; [lia |].
    destruct (f' z) eqn:E.
    - rewrite (Hff z E). cbn. lia.
    - destruct (f z); cbn; lia. }
  cbn [filter]. destruct Hin as [-> | Hin].
  - rewrite Hfx, Hf'x. cbn. lia.
  - specialize (IH Hin Hfx Hf'x). destruct (f' y) eqn:E.
    + rewrite (Hff y E). cbn. lia.
    + destruct (f y); cbn; lia.
Qed.

Lemma done_ok_spec (c : list string) (p : package) :
  done_ok c p = true <->
  In (package_id p) c /\ (forall d, In d (get_dependencies p) -> In d c).
Proof.
  unfold done_ok. rewrite andb_true_iff, mem_In, forallb_forall.
  split; intros [H1 H2]; (split; [assumption |]);
    intros d Hd; apply mem_In; now apply H2.
Qed.

Lemma done_ok_mono (c c' : list string) (p : package) :
  incl c c' -> done_ok c p = true -> done_ok c' p = true.
Proof.
  intros Hcc. rewrite !done_ok_spec. intros [H1 H2]. split; auto.
Qed.

(** One round of the loop keeps [counted]: the ids appended are those of
    packages [succ], all ready before the round, no more numerous than
    the packages of the run. *)
Lemma counted_round (t t' : CodingTeam) (succ : list package) :
  counted t ->
  (forall p, In p succ -> In p (_get_available_packages t)) ->
  fewer succ (work_packages t) ->
  completed_packages t' = completed_packages t ++ map package_id succ ->
  work_packages t' = work_packages t ->
  counted t'.
Proof.
  unfold counted. intros Hc Hav Hfew Hcp Hwp. rewrite Hcp, Hwp.
  set (c := completed_packages t) in *.
  set (c' := c ++ map package_id succ).
  set (h := fun p => done_ok c' p && negb (done_ok c p)).
  assert (Hsucc : forall p, In p succ -> h p = true).
  { intros p Hp. specialize (Hav p Hp).
    unfold _get_available_packages in Hav. apply available_from_In in Hav.
    destruct Hav as [_ [Hn Hd]]. unfold h. apply andb_true_iff. split.
    - apply done_ok_spec. split.
      + apply in_or_app. right. now apply in_map.
      + intros d Hdin. apply in_or_app. left. now apply Hd.
    - apply negb_true_iff. destruct (done_ok c p) eqn:E; [| reflexivity].
      apply done_ok_spec in E. tauto. }
  assert (H1 : (List.length succ <= List.length (filter h (work_packages t)))%nat).
  { rewrite <- (filter_all h succ Hsucc) at 1. apply Hfew. }
  assert (H2 : (List.length (filter (done_ok c) (work_packages t))
                + List.length (filter h (work_packages t))
                = List.length (filter (done_ok c') (work_packages t)))%nat).
  { apply filter_split. intros x. apply done_ok_mono.
    intros y Hy. apply in_or_app. now left. }
  assert (H3 : List.length c' = (List.length c + List.length succ)%nat).
  { unfold c'. now rewrite length_app, length_map. }
  lia.
Qed.

End Counting.

Section Progress.

Variable w : worker.

(** The ids a batch appends are those of some of its packages. *)
Lemma gather_succ (batch : list package) (t : CodingTeam) :
  exists succ,
    completed_packages (fst (gather w t batch))
    = completed_packages t ++ map package_id succ
    /\ fewer succ batch
    /\ (forall p, In p succ -> In p batch).
Proof.
  revert t. induction batch as [| p rest IH]; intros t; cbn [gather].
  - exists []. cbn. rewrite app_nil_r. auto using fewer_nil.
  - assert (H1 : completed_packages (fst (_execute_single_package w t p))
                 = completed_packages t
                 \/ completed_packages (fst (_execute_single_package w t p))
                    = completed_packages t ++ [package_id p]).
    { unfold _execute_single_package. cbv zeta.
      destruct (_find_agent_for_package _ p); [| now left].
      destruct (w _ _ p); cbn; auto. }
    destruct (_execute_single_package w t p) as [t1 fin1]. cbn [fst] in H1.
    destruct (IH t1) as [succ [Hc [Hfew Hin]]].
    destruct (gather w t1 rest) as [t2 fin2]. cbn [fst] in *.
    destruct H1 as [H1 | H1]; rewrite H1 in Hc.
    + exists succ. split; [assumption |]. split.
      * now apply fewer_skip.
      * intros q Hq. right. now apply Hin.
    + exists (p :: succ). split; [| split].
      * rewrite Hc, <- app_assoc. reflexivity.
      * now apply fewer_cons.
      * intros q [<- | Hq]; [now left | right; now apply Hin].
Qed.

Lemma logger_counted (e : log_event) (t : CodingTeam) :
  counted t -> counted (logger e t).
Proof. intros H. exact H. Qed.

(** The loop keeps [counted], whatever the workers do. *)
Lemma execute_loop_counted (fuel : nat) (t : CodingTeam) :
  counted t -> counted (team_of (execute_loop w fuel t)).
Proof.
  revert t. induction fuel as [| fuel IH]; intros t Hc; cbn [execute_loop].
  - now destruct (_ <? _)%nat.
  - destruct (_ <? _)%nat; [| assumption].
    destruct (_get_available_packages t) as [| p0 av] eqn:Eav; [assumption |].
    set (batch := Py.slice_to (p0 :: av) _).
    set (t1 := logger (LogBatch batch) t).
    destruct (gather_succ batch t1) as [succ [Hcp [Hfew Hin]]].
    destruct (gather_spec w batch t1) as [_ [_ [_ [[Hwp _] _]]]].
    assert (Hc2 : counted (fst (gather w t1 batch))).
    { apply counted_round with (t := t) (succ := succ); auto.
      - intros p Hp. rewrite Eav. apply slice_to_incl with (k := Z.min
          (Z.of_nat (List.length (p0 :: av))) (batch_processing_size t)).
        now apply Hin.
      - apply (fewer_trans Hfew). apply (fewer_trans (fewer_slice_to _ _)).
        rewrite <- Eav. apply fewer_available. }
    destruct (gather w t1 batch) as [t2 [|]]; cbn [fst team_of] in *; auto.
Qed.

(** How the loop can return: through its guard, or through the branch
    taken when no package is available. *)
Lemma execute_loop_returned (fuel : nat) (t t' : CodingTeam) :
  execute_loop w fuel t = Returned t' ->
  ((List.length (completed_packages t') <? List.length (work_packages t'))%nat
     = false
   /\ forall ids, In (LogBlocked ids) (log t') -> In (LogBlocked ids) (log t))
  \/ exists t0,
       t' = logger (LogBlocked (map package_id (blocked_packages t0))) t0
       /\ _get_available_packages t0 = []
       /\ (List.length (completed_packages t0)
             < List.length (work_packages t0))%nat.
Proof.
  revert t t'. induction fuel as [| fuel IH]; intros t t'; cbn [execute_loop].
  - destruct (_ <? _)%nat eqn:G; [discriminate |].
    intros H. injection H as <-. left. auto.
  - destruct (_ <? _)%nat eqn:G; [| intros H; injection H as <-; left; auto].
    destruct (_get_available_packages t) as [| p0 av] eqn:Eav.
    + intros H. injection H as <-. right. exists t. apply Nat.ltb_lt in G. auto.
    + set (batch := Py.slice_to (p0 :: av) _).
      set (t1 := logger (LogBatch batch) t).
      destruct (gather_spec w batch t1) as [evs [Hl [_ [_ [_ Hev]]]]].
      destruct (gather w t1 batch) as [t2 [|]]; [| discriminate].
      cbn [fst] in *. intros H. apply IH in H as [[HG Hb] | H]; [left | now right].
      split; [assumption |]. intros ids Hin. apply Hb in Hin.
      rewrite Hl in Hin. cbn in Hin.
      apply in_app_or in Hin as [Hin | Hin].
      * apply in_app_or in Hin as [Hin | [Hin | []]]; [assumption | discriminate].
      * destruct (Hev _ Hin) as [p [_ [H | [H | [a [n [H _]]]]]]]; discriminate.
Qed.

Hypothesis workers_return : always_returns w.

(** When every worker returns and every package finds an agent, a batch
    completes all its packages. *)
Lemma gather_all_return (batch : list package) (t : CodingTeam) :
  (forall p, In p batch -> _find_agent_for_package (agents t) p <> None) ->
  snd (gather w t batch) = true
  /\ completed_packages (fst (gather w t batch))
     = completed_packages t ++ map package_id batch.
Proof.
  revert t. induction batch as [| p rest IH]; intros t Hr; cbn [gather].
  - cbn. now rewrite app_nil_r.
  - assert (H1 : snd (_execute_single_package w t p) = true
                 /\ completed_packages (fst (_execute_single_package w t p))
                    = completed_packages t ++ [package_id p]
                 /\ agents (fst (_execute_single_package w t p)) = agents t).
    { unfold _execute_single_package. cbv zeta. cbn [tick agents dispatched].
      destruct (_find_agent_for_package (agents t) p) eqn:E.
      - rewrite workers_return. cbn. auto.
      - exfalso. apply (Hr p (or_introl eq_refl)). exact E. }
    destruct (_execute_single_package w t p) as [t1 fin1].
    cbn [fst snd] in H1. destruct H1 as [-> [Hc1 Ha1]].
    destruct (IH t1) as [Hfin Hc2].
    { intros q Hq. rewrite Ha1. apply Hr. now right. }
    destruct (gather w t1 rest) as [t2 fin2]. cbn [fst snd] in *.
    split; [assumption |].
    rewrite Hc2, Hc1, <- app_assoc. reflexivity.
Qed.

(** Then the loop returns within [iterations_left] executions of its
    body. *)
Lemma execute_loop_terminates (fuel : nat) (t : CodingTeam) :
  routable (agents t) (work_packages t) ->
  (1 <= batch_processing_size t)%Z ->
  (iterations_left t <= fuel)%nat ->
  exists t', execute_loop w fuel t = Returned t'.
Proof.
  revert t. induction fuel as [| fuel IH]; intros t Hr Hbs Hf;
    cbn [execute_loop]; destruct (_ <? _)%nat eqn:G; eauto.
  - apply Nat.ltb_lt in G. unfold iterations_left in Hf. lia.
  - apply Nat.ltb_lt in G.
    destruct (_get_available_packages t) as [| p0 av] eqn:Eav; [eauto |].
    destruct (slice_to_head p0 av (batch_processing_size t) Hbs) as [rest Hbatch].
    set (batch := Py.slice_to (p0 :: av) _) in *.
    set (t1 := logger (LogBatch batch) t).
    assert (Hin : forall p, In p batch -> In p (work_packages t)
                                          /\ ~ In (package_id p) (completed_packages t)).
    { intros p Hp. unfold batch in Hp. apply slice_to_incl in Hp.
      rewrite <- Eav in Hp. unfold _get_available_packages in Hp.
      apply available_from_In in Hp. tauto. }
    destruct (gather_all_return batch t1) as [Hfin Hcp].
    { intros p Hp. apply Hr. now apply Hin. }
    destruct (gather_spec w batch t1) as [_ [_ [_ [[Hwp [Hag [Hb _]]] _]]]].
    destruct (gather w t1 batch) as [t2 fin2]. cbn [fst snd] in *. subst fin2.
    apply IH.
    + rewrite Hag, Hwp. exact Hr.
    + rewrite Hb. exact Hbs.
    + unfold iterations_left in *. rewrite Hwp, Hcp.
      cbn [t1 logger completed_packages work_packages].
      rewrite length_app, length_map, Hbatch. cbn [List.length].
      assert (Hlt : (List.length (blocked_packages t2)
                     < List.length (blocked_packages t))%nat).
      { unfold blocked_packages. rewrite Hwp, Hcp.
        cbn [t1 logger completed_packages work_packages].
        apply filter_length_lt with (x := p0).
        - intros y Hy. apply negb_true_iff in Hy. apply negb_true_iff.
          apply mem_false_In. apply mem_false_In in Hy.
          intros Hc. apply Hy. apply in_or_app. now left.
        - apply Hin. rewrite Hbatch. now left.
        - apply negb_true_iff. apply mem_false_In. apply Hin.
          rewrite Hbatch. now left.
        - apply negb_false_iff. apply mem_In. apply in_or_app. right.
          rewrite Hbatch. now left. }
      lia.
Qed.

Lemma iterations_left_le (t : CodingTeam) :
  (iterations_left t <= List.length (work_packages t))%nat.
Proof. unfold iterations_left. lia. Qed.

End Progress.

Section Exit.

Lemma forallb_false_witness {A : Type} (f : A -> bool) (l : list A) :
  forallb f l = false -> exists x, In x l /\ f x = false.
Proof.
  induction l as [| y l IH]; cbn [forallb]; [discriminate |].
  destruct (f y) eqn:E; cbn [andb].
  - intros H. destruct (IH H) as [x [Hx Hf]]. exists x. split; [now right | assumption].
  - intros _. exists y. split; [now left | assumption].
Qed.

(** Nothing available means: every package not yet completed has a
    dependency that is not completed. *)
Lemma nothing_available (c : list string) (pkgs : list package) (p : package) :
  available_from c pkgs = [] ->
  In p pkgs -> ~ In (package_id p) c ->
  exists d, In d (get_dependencies p) /\ ~ In d c.
Proof.
  intros Hav Hp Hn.
  destruct (forallb (fun d => Py.mem d c) (get_dependencies p)) eqn:E.
  - exfalso. assert (H : In p (available_from c pkgs)).
    { apply available_from_In. split; [assumption |]. split; [assumption |].
      intros d Hd. apply mem_In. rewrite forallb_forall in E. now apply E. }
    rewrite Hav in H. contradiction.
  - apply forallb_false_witness in E as [d [Hd Hm]].
    exists d. split; [assumption | now apply mem_false_In].
Qed.

(** In an acyclic graph whose dependencies all resolve, some package is
    available as long as some package is not completed. *)
Lemma acyclic_available (c : list string) (pkgs : list package) :
  acyclic pkgs -> resolvable pkgs ->
  forall p, In p pkgs -> ~ In (package_id p) c ->
  available_from c pkgs <> [].
Proof.
  intros [rank Hrank] Hres.
  assert (H : forall n p, (rank (package_id p) < n)%nat ->
              In p pkgs -> ~ In (package_id p) c ->
              available_from c pkgs <> []).
  { induction n as [| n IH]; intros p Hlt Hp Hn Hav; [lia |].
    destruct (nothing_available c pkgs p Hav Hp Hn) as [d [Hd Hdn]].
    destruct (proj1 (in_map_iff _ _ _) (Hres p d Hp Hd)) as [q [Hq Hqin]].
    apply (IH q); auto.
    - rewrite Hq. specialize (Hrank p d Hp Hd). lia.
    - now rewrite Hq. }
  intros p. apply (H (S (rank (package_id p)))). lia.
Qed.

Variable w : worker.

(** When every worker raises, a batch changes neither the list of
    completed ids nor the configuration, and the [await] returns. *)
Lemma gather_all_raise (batch : list package) (t : CodingTeam) :
  (forall n a p, w n a p = Raises) ->
  snd (gather w t batch) = true
  /\ completed_packages (fst (gather w t batch)) = completed_packages t.
Proof.
  intros Hw. revert t. induction batch as [| p rest IH]; intros t; cbn [gather].
  - auto.
  - assert (H1 : snd (_execute_single_package w t p) = true
                 /\ completed_packages (fst (_execute_single_package w t p))
                    = completed_packages t).
    { unfold _execute_single_package. cbv zeta.
      destruct (_find_agent_for_package _ p); [rewrite Hw |]; cbn; auto. }
    destruct (_execute_single_package w t p) as [t1 fin1].
    cbn [fst snd] in H1. destruct H1 as [-> Hc1].
    destruct (IH t1) as [Hfin Hc2].
    destruct (gather w t1 rest) as [t2 fin2]. cbn [fst snd] in *.
    split; [assumption | congruence].
Qed.

(** So the loop never leaves a state in which a package is available. *)
Lemma raising_workers_loop_forever (fuel : nat) (t : CodingTeam) :
  (forall n a p, w n a p = Raises) ->
  (List.length (completed_packages t) < List.length (work_packages t))%nat ->
  _get_available_packages t <> [] ->
  exists t', execute_loop w fuel t = OutOfFuel t'.
Proof.
  intros Hw. revert t. induction fuel as [| fuel IH]; intros t G Hav;
    cbn [execute_loop]; rewrite (proj2 (Nat.ltb_lt _ _) G); [eauto |].
  destruct (_get_available_packages t) as [| p0 av] eqn:Eav; [congruence |].
  set (batch := Py.slice_to (p0 :: av) _).
  set (t1 := logger (LogBatch batch) t).
  destruct (gather_all_raise batch t1 Hw) as [Hfin Hcp].
  destruct (gather_spec w batch t1) as [_ [_ [_ [[Hwp _] _]]]].
  destruct (gather w t1 batch) as [t2 fin2]. cbn [fst snd] in *. subst fin2.
  apply IH.
  - now rewrite Hcp, Hwp.
  - unfold _get_available_packages in *. rewrite Hcp, Hwp.
    cbn [t1 logger completed_packages work_packages]. rewrite Eav. discriminate.
Qed.

(** With a batch size of zero every batch is empty, and the loop never
    leaves a state in which a package is available either. *)
Lemma zero_batch_size_loops_forever (fuel : nat) (t : CodingTeam) :
  batch_processing_size t = 0%Z ->
  (List.length (completed_packages t) < List.length (work_packages t))%nat ->
  _get_available_packages t <> [] ->
  exists t', execute_loop w fuel t = OutOfFuel t'.
Proof.
  revert t. induction fuel as [| fuel IH]; intros t Hbs G Hav;
    cbn [execute_loop]; rewrite (proj2 (Nat.ltb_lt _ _) G); [eauto |].
  destruct (_get_available_packages t) as [| p0 av] eqn:Eav; [congruence |].
  rewrite Hbs.
  replace (Z.min (Z.of_nat (List.length (p0 :: av))) 0) with 0%Z by lia.
  cbn [Py.slice_to Z.leb Z.compare Z.to_nat firstn gather].
  apply IH; cbn [logger batch_processing_size completed_packages work_packages];
    try assumption.
  unfold _get_available_packages in *.
  cbn [logger completed_packages work_packages]. rewrite Eav. discriminate.
Qed.

End Exit.

(** * The scheduler claims *)

Section SchedulerClaims.

Variable w : worker.

Lemma run_start_consistent (t : CodingTeam) :
  fresh t -> consistent w (run_start t) /\ counted (run_start t).
Proof.
  intros [Hc Hl]. split; [split |]; unfold counted; cbn; rewrite ?Hc, ?Hl.
  - reflexivity.
  - apply trace_ok_snoc with (l := []); [apply trace_ok_nil | exact I].
  - cbn. lia.
Qed.

Lemma execute_work_packages_loop (fuel : nat) (t : CodingTeam) :
  execute_work_packages w fuel t
  = match execute_loop w fuel (run_start t) with
    | Returned t' =>
        Returned (logger (LogFinished (List.length (completed_packages t'))
                                      (List.length (work_packages t'))) t')
    | r => r
    end.
Proof. reflexivity. Qed.


(** C4, as the code has it. On a fresh team with a positive batch size,
    when every dispatched worker returns and every package finds an
    agent, [execute_work_packages] returns after at most as many loop
    iterations as there are packages, cyclic graph or not. If moreover
    the graph is acyclic and every dependency names a package of the
    run, every package is completed when it returns. *)
Theorem terminates_when_workers_return (t : CodingTeam) :
  fresh t ->
  always_returns w ->
  routable (agents t) (work_packages t) ->
  (1 <= batch_processing_size t)%Z ->
  exists t',
    execute_work_packages w (List.length (work_packages t)) t = Returned t'
    /\ (acyclic (work_packages t) -> resolvable (work_packages t) ->
        forall p, In p (work_packages t) ->
                  In (package_id p) (completed_packages t')).
Proof.
  intros Hfresh Hret Hr Hbs.
  destruct (run_start_consistent t Hfresh) as [Hcons Hcnt].
  destruct (execute_loop_terminates w Hret (List.length (work_packages t))
              (run_start t) Hr Hbs (iterations_left_le (run_start t)))
    as [t1 Hloop].
  assert (Hf := proj2 (execute_loop_consistent w
                         (List.length (work_packages t)) (run_start t) Hcons)).
  assert (Hc1 := execute_loop_counted w
                   (List.length (work_packages t)) (run_start t) Hcnt).
  rewrite Hloop in Hf, Hc1. cbn [team_of] in Hf, Hc1.
  destruct Hf as [Hwp _]. cbn [run_start logger set_state work_packages] in Hwp.
  exists (logger (LogFinished (List.length (completed_packages t1))
                              (List.length (work_packages t1))) t1).
  split; [rewrite execute_work_packages_loop, Hloop; reflexivity |].
  intros Hacyc Hres p Hp. cbn [logger completed_packages].
  apply execute_loop_returned in Hloop as [[G _] | [t0 [-> [Hav G]]]].
  - apply Nat.ltb_ge in G. unfold counted in Hc1.
    assert (Hle := filter_length_le (done_ok (completed_packages t1))
                                    (work_packages t1)).
    assert (Hall : forallb (done_ok (completed_packages t1))
                           (work_packages t1) = true).
    { apply filter_length_forallb. lia. }
    rewrite forallb_forall in Hall. rewrite <- Hwp in Hp.
    specialize (Hall p Hp). now apply done_ok_spec in Hall.
  - cbn [logger completed_packages work_packages] in *.
    destruct (Py.mem (package_id p) (completed_packages t0)) eqn:E;
      [now apply mem_In |].
    exfalso. apply mem_false_In in E. rewrite <- Hwp in *.
    now apply (acyclic_available (completed_packages t0)
                 (work_packages t0) Hacyc Hres p Hp E).
Qed.

(** C5, as the code has it. The only structural check is that the list
    of work packages is not empty. A list holding a set of ids that can
    never complete (the ids of a dependency cycle, or an id that no
    package carries) is accepted by the analysis step, and the loop is
    entered; the packages that carry or depend on such an id are never
    dispatched. *)
Theorem invalid_graph_accepted
        (fuel : nat) (planned : list package) (t : CodingTeam)
        (S : string -> Prop) :
  fresh t ->
  planned <> [] ->
  unsatisfiable planned S ->
  exists t1,
    analyze_problem_systematically planned t = Some t1
    /\ work_packages t1 = planned
    /\ forall batch P,
         In (LogBatch batch)
            (log (team_of (execute_work_packages w fuel t1))) ->
         In P batch ->
         ~ S (package_id P)
         /\ (forall d, In d (get_dependencies P) -> ~ S d).
Proof.
  intros Hfresh Hne HS.
  exists (set_work_packages planned (set_state ANALYZING t)).
  split; [| split; [reflexivity |]].
  - unfold analyze_problem_systematically. cbv zeta. cbn [work_packages set_work_packages].
    destruct planned; [congruence | reflexivity].
  - intros batch P Hb HP.
    destruct (execute_work_packages_consistent w fuel
                (set_work_packages planned (set_state ANALYZING t)))
      as [[_ Hok] Hwp]; [exact Hfresh |].
    rewrite Hwp in Hok. cbn [work_packages set_work_packages] in Hok.
    exact (unsatisfiable_never_dispatched w HS Hok Hb HP).
Qed.

(** C9, as the code has it. A package [P] that declares a dependency [g]
    carried by no package of the run makes nothing raise:
    [_get_available_packages] never returns [P], [P] is never
    dispatched, and a run that returns does so through the branch taken
    when no package is available. The run does return, within as many
    iterations as there are packages, when every dispatched worker
    returns, every package finds an agent and the batch size is
    positive. *)
Theorem missing_dependency_never_dispatched
        (fuel : nat) (t : CodingTeam) (P : package) (g : string) :
  fresh t ->
  In P (work_packages t) ->
  In g (get_dependencies P) ->
  ~ In g (map package_id (work_packages t)) ->
  (forall c, ~ In g c -> ~ In P (available_from c (work_packages t)))
  /\ ~ In P (_get_available_packages
               (team_of (execute_work_packages w fuel t)))
  /\ ~ In P (dispatched_of (log (team_of (execute_work_packages w fuel t))))
  /\ (forall t', execute_work_packages w fuel t = Returned t' ->
                 exists ids, In (LogBlocked ids) (log t'))
  /\ (always_returns w ->
      routable (agents t) (work_packages t) ->
      (1 <= batch_processing_size t)%Z ->
      exists t' ids,
        execute_work_packages w (List.length (work_packages t)) t
        = Returned t'
        /\ In (LogBlocked ids) (log t')).
Proof.
  intros Hfresh HP Hg Hmiss.
  assert (HS : unsatisfiable (work_packages t) (fun s => s = g)).
  { intros p Hp Hid. exfalso. apply Hmiss. rewrite <- Hid. now apply in_map. }
  assert (Hnever : forall c, ~ In g c ->
                     ~ In P (available_from c (work_packages t))).
  { intros c Hc Hin. apply available_from_In in Hin as [_ [_ Hd]]. auto. }
  assert (Hblocked : forall n t',
            execute_work_packages w n t = Returned t' ->
            exists ids, In (LogBlocked ids) (log t')).
  { intros n t' Hrun. rewrite execute_work_packages_loop in Hrun.
    destruct (run_start_consistent t Hfresh) as [Hcons Hcnt].
    assert (Hc := execute_loop_consistent w n (run_start t) Hcons).
    assert (Hc1 := execute_loop_counted w n (run_start t) Hcnt).
    destruct (execute_loop w n (run_start t)) as [t1 | |] eqn:Hloop;
      try discriminate.
    injection Hrun as <-. cbn [team_of] in *.
    destruct Hc as [[Hcp Hok] [Hwp _]].
    cbn [run_start logger set_state work_packages] in Hwp.
    apply execute_loop_returned in Hloop as [[G _] | [t0 [-> _]]].
    - exfalso. apply Nat.ltb_ge in G. unfold counted in Hc1.
      assert (Hlt : (List.length (filter (done_ok (completed_packages t1))
                                         (work_packages t1))
                     < List.length (filter (fun _ => true)
                                           (work_packages t1)))%nat).
      { apply filter_length_lt with (x := P); auto.
        - now rewrite Hwp.
        - destruct (done_ok (completed_packages t1) P) eqn:E; [| reflexivity].
          exfalso. apply done_ok_spec in E as [_ E]. specialize (E g Hg).
          rewrite Hcp, Hwp in *.
          now apply (unsatisfiable_never_completed w HS Hok (s := g)). }
      rewrite (filter_all (fun _ => true)) in Hlt by reflexivity. lia.
    - eexists. cbn. apply in_or_app. left. apply in_or_app. right. now left. }
  destruct (execute_work_packages_consistent w fuel t Hfresh)
    as [[Hcp Hok] Hwp].
  assert (Hgn : ~ In g (completed_packages
                          (team_of (execute_work_packages w fuel t)))).
  { rewrite Hcp. rewrite Hwp in Hok.
    now apply (unsatisfiable_never_completed w HS Hok (s := g)). }
  split; [exact Hnever |]. split; [| split; [| split]].
  - unfold _get_available_packages. rewrite Hwp. now apply Hnever.
  - intros Hin. apply dispatched_of_In in Hin as [batch [Hb HPb]].
    rewrite Hwp in Hok.
    destruct (unsatisfiable_never_dispatched w HS Hok Hb HPb) as [_ Hd].
    now apply (Hd g).
  - apply Hblocked.
  - intros Hret Hr Hbs.
    destruct (execute_loop_terminates w Hret (List.length (work_packages t))
                (run_start t) Hr Hbs (iterations_left_le (run_start t)))
      as [t1 Hloop].
    assert (Hrun : execute_work_packages w (List.length (work_packages t)) t
                   = Returned (logger
                       (LogFinished (List.length (completed_packages t1))
                                    (List.length (work_packages t1))) t1)).
    { now rewrite execute_work_packages_loop, Hloop. }
    destruct (Hblocked _ _ Hrun) as [ids Hids]. eauto.
Qed.

End SchedulerClaims.

Section Isolation.

Variable w : worker.





End Isolation.

(** * The claims on sample runs *)

(** Scenario 1: the diamond with batch width 2 runs [A], then [B] and [C],
    then [D]. *)
Example diamond_log :
  log (team_of (execute_work_packages reliable 4 (team_with 2 diamond)))
  = [ LogExecuting 4;
      LogBatch [pk "A" []];
      LogCompleted "A" "fullstack_specialist";
      LogBatch [pk "B" ["A"]; pk "C" ["A"]];
      LogCompleted "B" "fullstack_specialist";
      LogCompleted "C" "fullstack_specialist";
      LogBatch [pk "D" ["B"; "C"]];
      LogCompleted "D" "fullstack_specialist";
      LogFinished 4 4 ].
Proof. reflexivity. Qed.

Lemma fresh_team_with (bs : Z) (pkgs : list package) : fresh (team_with bs pkgs).
Proof. split; reflexivity. Qed.

Lemma routable_team_agents (pkgs : list package) : routable team_agents pkgs.
Proof.
  intros p _. unfold _find_agent_for_package. cbv zeta.
  destruct (Py.mem (mapped_name (get_agent p)) team_agents); [discriminate |].
  repeat (destruct (any_type_in _ _); [discriminate |]). discriminate.
Qed.

Lemma dispatch_after_dependencies_witness :
  In "A" (completed_of [ LogExecuting 4; LogBatch [pk "A" []];
                         LogCompleted "A" "fullstack_specialist" ]).
Proof.
  apply (dispatch_after_dependencies reliable 4 (team_with 2 diamond)
           [ LogExecuting 4; LogBatch [pk "A" []];
             LogCompleted "A" "fullstack_specialist" ]
           [ LogCompleted "B" "fullstack_specialist";
             LogCompleted "C" "fullstack_specialist";
             LogBatch [pk "D" ["B"; "C"]];
             LogCompleted "D" "fullstack_specialist";
             LogFinished 4 4 ]
           [pk "B" ["A"]; pk "C" ["A"]] (pk "B" ["A"]) "A").
  - split; reflexivity.
  - reflexivity.
  - left. reflexivity.
  - left. reflexivity.
Defined.

(** C1 as stated fails: a package whose worker raised is selected again
    in the next iteration, so it is dispatched twice. *)
Lemma failed_package_redispatched :
  log (team_of (execute_work_packages flaky 2 (team_with 3 [pk "A" []])))
  = [ LogExecuting 1;
      LogBatch [pk "A" []]; LogFailed "A";
      LogBatch [pk "A" []]; LogCompleted "A" "fullstack_specialist";
      LogFinished 1 1 ]
  /\ dispatch_count "A"
       (log (team_of (execute_work_packages flaky 2 (team_with 3 [pk "A" []]))))
     = 2.
Proof. split; reflexivity. Qed.

Lemma completed_never_redispatched_witness :
  package_id (pk "D" ["B"; "C"]) <> "A"
  /\ In (pk "A" []) (_get_available_packages
                       (team_of (execute_work_packages flaky 1
                                   (team_with 2 [pk "A" []])))).
Proof.
  split.
  - apply (proj1 (completed_never_redispatched reliable 4
                    (team_with 2 diamond) (conj eq_refl eq_refl))
             [ LogExecuting 4; LogBatch [pk "A" []] ]
             [ LogBatch [pk "B" ["A"]; pk "C" ["A"]];
               LogCompleted "B" "fullstack_specialist";
               LogCompleted "C" "fullstack_specialist" ]
             [ LogCompleted "D" "fullstack_specialist"; LogFinished 4 4 ]
             "A" "fullstack_specialist" [pk "D" ["B"; "C"]]).
    + reflexivity.
    + left. reflexivity.
  - apply (proj2 (completed_never_redispatched flaky 1
                    (team_with 2 [pk "A" []]) (conj eq_refl eq_refl))
             [pk "A" []] (pk "A" [])).
    + vm_compute. tauto.
    + left. reflexivity.
    + vm_compute. tauto.
Defined.



(** C4 as stated fails: on one package without dependencies whose worker
    always raises, the loop never ends. *)
Lemma raising_worker_never_terminates :
  acyclic [pk "A" []]
  /\ (forall n a p, unreliable n a p <> NeverReturns)
  /\ forall fuel, exists t',
       execute_work_packages unreliable fuel (team_with 3 [pk "A" []])
       = OutOfFuel t'.
Proof.
  split; [| split].
  - exists (fun _ => 0). intros p d [<- | []] [].
  - discriminate.
  - intros fuel. rewrite execute_work_packages_loop.
    destruct (raising_workers_loop_forever unreliable fuel
                (run_start (team_with 3 [pk "A" []]))) as [t' Ht'].
    + reflexivity.
    + cbn. lia.
    + discriminate.
    + rewrite Ht'. eauto.
Qed.

(** The bound on the batch size is needed: with a batch size of zero the
    loop never ends even though every worker would return. *)
Example zero_batch_size_never_terminates :
  forall fuel, exists t',
    execute_work_packages reliable fuel (team_with 0 [pk "A" []])
    = OutOfFuel t'.
Proof.
  intros fuel. rewrite execute_work_packages_loop.
  destruct (zero_batch_size_loops_forever reliable fuel
              (run_start (team_with 0 [pk "A" []]))) as [t' Ht'].
  - reflexivity.
  - cbn. lia.
  - discriminate.
  - rewrite Ht'. eauto.
Qed.

Lemma acyclic_diamond : acyclic diamond /\ resolvable diamond.
Proof.
  split.
  - exists (fun id => if String.eqb id "A" then 0
                      else if String.eqb id "D" then 2 else 1).
    intros p d Hp Hd. cbn in Hp.
    repeat destruct Hp as [<- | Hp]; try contradiction; cbn in Hd;
      repeat destruct Hd as [<- | Hd]; try contradiction; cbn; lia.
  - intros p d Hp Hd. cbn in Hp.
    repeat destruct Hp as [<- | Hp]; try contradiction; cbn in Hd;
      repeat destruct Hd as [<- | Hd]; try contradiction; cbn; tauto.
Qed.

Lemma terminates_when_workers_return_witness :
  exists t',
    execute_work_packages reliable 4 (team_with 2 diamond) = Returned t'
    /\ In "D" (completed_packages t').
Proof.
  destruct (terminates_when_workers_return reliable (team_with 2 diamond))
    as [t' [Hrun Hall]].
  - apply fresh_team_with.
  - intros n a p. reflexivity.
  - apply routable_team_agents.
  - cbn. lia.
  - exists t'. split; [exact Hrun |].
    apply (Hall (proj1 acyclic_diamond) (proj2 acyclic_diamond)
                (pk "D" ["B"; "C"])).
    cbn. tauto.
Defined.

(** C5 as stated fails: a list with the cycle [X], [Y] is not rejected;
    the run starts, [A] is dispatched and completed, and the run ends
    with a report. *)
Lemma cyclic_graph_not_rejected :
  exists t',
    (forall ext objects,
        solve_problem reliable 3 ext objects
                      [pk "A" []; pk "X" ["Y"]; pk "Y" ["X"]] (new_team 3)
        = Report (generate_final_report ext objects
                    (team_of (execute_work_packages reliable 3
                                (team_with 3 [pk "A" []; pk "X" ["Y"];
                                              pk "Y" ["X"]]))))
                 t')
    /\ log t' = [ LogExecuting 3;
                  LogBatch [pk "A" []];
                  LogCompleted "A" "fullstack_specialist";
                  LogBlocked ["X"; "Y"];
                  LogFinished 1 3 ].
Proof. eexists. split; [intros ext objects |]; reflexivity. Qed.

Lemma invalid_graph_accepted_witness :
  exists t1,
    analyze_problem_systematically [pk "A" []; pk "X" ["Y"]; pk "Y" ["X"]]
                                   (new_team 3) = Some t1
    /\ forall batch P,
         In (LogBatch batch)
            (log (team_of (execute_work_packages reliable 3 t1))) ->
         In P batch ->
         package_id P <> "X" /\ package_id P <> "Y".
Proof.
  destruct (invalid_graph_accepted reliable 3
              [pk "A" []; pk "X" ["Y"]; pk "Y" ["X"]] (new_team 3)
              (fun s => s = "X" \/ s = "Y"))
    as [t1 [Ha [_ Hnever]]].
  - split; reflexivity.
  - discriminate.
  - intros p Hp Hid. cbn in Hp.
    destruct Hp as [<- | [<- | [<- | []]]]; cbn in *.
    + destruct Hid; discriminate.
    + exists "Y". tauto.
    + exists "X". tauto.
  - exists t1. split; [exact Ha |].
    intros batch P Hb HP. destruct (Hnever batch P Hb HP) as [Hn _]. tauto.
Defined.



(** C9 as stated fails to hold of every run: beside a package whose worker
    always raises, the run with a missing dependency never exits. *)
Lemma missing_dependency_run_may_not_exit :
  In (pk "B" ["ghost"]) [pk "A" []; pk "B" ["ghost"]]
  /\ ~ In "ghost" (map package_id [pk "A" []; pk "B" ["ghost"]])
  /\ forall fuel, exists t',
       execute_work_packages unreliable fuel
                             (team_with 3 [pk "A" []; pk "B" ["ghost"]])
       = OutOfFuel t'.
Proof.
  split; [cbn; tauto |].
  split; [cbn; intros [H | [H | []]]; discriminate H |].
  intros fuel. rewrite execute_work_packages_loop.
  destruct (raising_workers_loop_forever unreliable fuel
              (run_start (team_with 3 [pk "A" []; pk "B" ["ghost"]])))
    as [t' Ht'].
  - reflexivity.
  - cbn. lia.
  - discriminate.
  - rewrite Ht'. eauto.
Qed.

Lemma missing_dependency_never_dispatched_witness :
  exists t' ids,
    execute_work_packages reliable 2
                          (team_with 3 [pk "A" []; pk "B" ["ghost"]])
    = Returned t'
    /\ In (LogBlocked ids) (log t')
    /\ ~ In (pk "B" ["ghost"]) (dispatched_of (log t')).
Proof.
  destruct (missing_dependency_never_dispatched reliable 2
              (team_with 3 [pk "A" []; pk "B" ["ghost"]])
              (pk "B" ["ghost"]) "ghost")
    as [_ [_ [Hnd [_ Hexit]]]].
  - apply fresh_team_with.
  - cbn. tauto.
  - cbn. tauto.
  - cbn. intros [H | [H | []]]; discriminate H.
  - destruct Hexit as [t' [ids [Hrun Hb]]].
    + intros n a p. reflexivity.
    + apply routable_team_agents.
    + cbn. lia.
    + exists t', ids. split; [exact Hrun |]. split; [exact Hb |].
      cbn in Hrun. rewrite Hrun in Hnd. exact Hnd.
Defined.

(** * Further properties of the scheduler *)

Section SchedulerInvariants.

Variable w : worker.

(** The loop leaves the configuration and the team state alone. *)
Lemma execute_loop_frame (fuel : nat) (t : CodingTeam) :
  frame t (team_of (execute_loop w fuel t)).
Proof.
  revert t. induction fuel as [| fuel IH]; intros t; cbn [execute_loop].
  - destruct (_ <? _)%nat; apply frame_refl.
  - destruct (_ <? _)%nat; [| apply frame_refl].
    destruct (_get_available_packages t) as [| p0 av]; [repeat split |].
    set (batch := Py.slice_to (p0 :: av) _).
    destruct (gather_spec w batch (logger (LogBatch batch) t))
      as [_ [_ [_ [Hf _]]]].
    destruct (gather w (logger (LogBatch batch) t) batch) as [t2 [|]];
      cbn [fst team_of] in *.
    + exact (frame_trans Hf (IH t2)).
    + exact Hf.
Qed.

(** A property of the list of completed ids that every round keeps is
    kept by the loop. A round appends the ids of packages that were
    available, no more numerous than the packages of the run. *)
Lemma execute_loop_invariant (I : list string -> Prop) (pkgs : list package) :
  (forall c succ,
      I c ->
      (forall p, In p succ -> In p (available_from c pkgs)) ->
      fewer succ pkgs ->
      I (c ++ map package_id succ)) ->
  forall fuel t,
    work_packages t = pkgs ->
    I (completed_packages t) ->
    I (completed_packages (team_of (execute_loop w fuel t))).
Proof.
  intros Hround. induction fuel as [| fuel IH]; intros t Hwp HI;
    cbn [execute_loop].
  - now destruct (_ <? _)%nat.
  - destruct (_ <? _)%nat; [| assumption].
    destruct (_get_available_packages t) as [| p0 av] eqn:Eav; [assumption |].
    set (batch := Py.slice_to (p0 :: av) _).
    set (t1 := logger (LogBatch batch) t).
    destruct (gather_succ w batch t1) as [succ [Hcp [Hfew Hin]]].
    destruct (gather_spec w batch t1) as [_ [_ [_ [[Hwp2 _] _]]]].
    assert (HI2 : I (completed_packages (fst (gather w t1 batch)))).
    { rewrite Hcp. cbn [t1 logger completed_packages]. apply Hround; auto.
      - intros p Hp. apply Hin in Hp. unfold batch in Hp.
        apply slice_to_incl in Hp. rewrite <- Eav, <- Hwp in *. exact Hp.
      - apply (fewer_trans Hfew). apply (fewer_trans (fewer_slice_to _ _)).
        rewrite <- Eav, <- Hwp. apply fewer_available. }
    destruct (gather w t1 batch) as [t2 [|]]; cbn [fst team_of] in *; auto.
    apply IH; [| assumption]. rewrite Hwp2. exact Hwp.
Qed.

Lemma count_occ_map_id (x : string) (l : list package) :
  count_occ string_dec (map package_id l) x
  = List.length (filter (fun p => String.eqb (package_id p) x) l).
Proof.
  induction l as [| p l IH]; cbn [map count_occ filter]; [reflexivity |].
  destruct (string_dec (package_id p) x) as [E | E].
  - apply String.eqb_eq in E. rewrite E. cbn. now rewrite IH.
  - apply String.eqb_neq in E. now rewrite E.
Qed.

Lemma fewer_NoDup_ids (s l : list package) :
  fewer s l -> NoDup (map package_id l) -> NoDup (map package_id s).
Proof.
  intros Hfew Hnd. apply (NoDup_count_occ string_dec). intros x.
  rewrite (NoDup_count_occ string_dec) in Hnd. specialize (Hnd x).
  rewrite count_occ_map_id in *.
  specialize (Hfew (fun p => String.eqb (package_id p) x)). lia.
Qed.

Lemma firstn_length_le {A : Type} (n : nat) (l : list A) :
  (List.length (firstn n l) <= n)%nat.
Proof.
  revert l. induction n as [| n IH]; intros [| x l]; cbn; try lia.
  specialize (IH l). lia.
Qed.

(** Every batch the loop logs is within the batch size. *)
Lemma execute_loop_batches (fuel : nat) (t : CodingTeam) (batch : list package) :
  (0 <= batch_processing_size t)%Z ->
  In (LogBatch batch) (log (team_of (execute_loop w fuel t))) ->
  In (LogBatch batch) (log t)
  \/ (Z.of_nat (List.length batch) <= batch_processing_size t)%Z.
Proof.
  revert t. induction fuel as [| fuel IH]; intros t Hbs; cbn [execute_loop].
  - destruct (_ <? _)%nat; cbn; auto.
  - destruct (_ <? _)%nat; [| cbn; auto].
    destruct (_get_available_packages t) as [| p0 av] eqn:Eav.
    + cbn. intros Hin. apply in_app_or in Hin as [Hin | [Hin | []]];
        [now left | discriminate].
    + set (b := Py.slice_to (p0 :: av) _).
      assert (Hb : (Z.of_nat (List.length b) <= batch_processing_size t)%Z).
      { unfold b, Py.slice_to.
        set (k := Z.min _ _).
        assert (Hk : (0 <= k <= batch_processing_size t)%Z) by (unfold k; lia).
        destruct (0 <=? k)%Z eqn:E; [| apply Z.leb_gt in E; lia].
        assert (H := firstn_length_le (Z.to_nat k) (p0 :: av)). lia. }
      destruct (gather_spec w b (logger (LogBatch b) t))
        as [evs [Hl [_ [[_ [_ [Hbs2 _]]] [_ Hev]]]]].
      assert (Hstep : forall x, In (LogBatch x)
                        (log (fst (gather w (logger (LogBatch b) t) b))) ->
                      In (LogBatch x) (log t) \/ x = b).
      { intros x Hx. rewrite Hl in Hx. cbn in Hx.
        apply in_app_or in Hx as [Hx | Hx].
        - apply in_app_or in Hx as [Hx | [Hx | []]]; [now left |].
          right. now injection Hx.
        - destruct (Hev _ Hx) as [p [_ [H | [H | [a [n [H _]]]]]]];
            discriminate. }
      destruct (gather w (logger (LogBatch b) t) b) as [t2 [|]];
        cbn [fst team_of] in *.
      * intros Hin. cbn [logger batch_processing_size] in Hbs2.
        apply IH in Hin; [| now rewrite Hbs2].
        destruct Hin as [Hin | Hin]; [| right; now rewrite <- Hbs2].
        destruct (Hstep _ Hin) as [H | ->]; auto.
      * intros Hin. destruct (Hstep _ Hin) as [H | ->]; auto.
Qed.

End SchedulerInvariants.

Section SchedulerExtras.

Variable w : worker.

Lemma execute_work_packages_fields (fuel : nat) (t : CodingTeam) :
  completed_packages (team_of (execute_work_packages w fuel t))
  = completed_packages (team_of (execute_loop w fuel (run_start t)))
  /\ frame (run_start t) (team_of (execute_work_packages w fuel t)).
Proof.
  rewrite execute_work_packages_loop.
  assert (Hf := execute_loop_frame w fuel (run_start t)).
  destruct (execute_loop w fuel (run_start t)); cbn [team_of] in *; auto.
Qed.

Lemma available_from_none (c : list string) (ps : list package) :
  (forall p, In p ps -> In (package_id p) c) -> available_from c ps = [].
Proof.
  induction ps as [| p ps IH]; intros H; cbn [available_from]; [reflexivity |].
  rewrite (proj2 (mem_In _ _) (H p (or_introl eq_refl))).
  apply IH. intros q Hq. apply H. now right.
Qed.

(** Batches never exceed [batch_processing_size]: on a run started from a
    fresh team with a non-negative batch size, every batch handed to
    [asyncio.gather] holds at most that many packages. *)
Theorem batches_within_batch_size
        (fuel : nat) (t : CodingTeam) (batch : list package) :
  fresh t ->
  (0 <= batch_processing_size t)%Z ->
  In (LogBatch batch) (log (team_of (execute_work_packages w fuel t))) ->
  (Z.of_nat (List.length batch) <= batch_processing_size t)%Z.
Proof.
  intros [_ Hl] Hbs Hin.
  assert (Hloop : In (LogBatch batch)
                     (log (team_of (execute_loop w fuel (run_start t))))).
  { rewrite execute_work_packages_loop in Hin.
    destruct (execute_loop w fuel (run_start t)); cbn [team_of] in *; auto.
    cbn in Hin. apply in_app_or in Hin as [Hin | [Hin | []]];
      [assumption | discriminate]. }
  apply execute_loop_batches in Hloop; [| exact Hbs].
  destruct Hloop as [Hin0 | Hle]; [| exact Hle].
  cbn in Hin0. rewrite Hl in Hin0. cbn in Hin0.
  destruct Hin0 as [Hin0 | []]. discriminate.
Qed.

(** The number of completed ids never exceeds the number of packages: at
    any point of a run started from a fresh team, the entry [remaining]
    of [get_status] is not negative and adds up with [completed] to
    [total]. *)
Theorem completed_count_bounded (fuel : nat) (t : CodingTeam) :
  fresh t ->
  (List.length (completed_packages (team_of (execute_work_packages w fuel t)))
   <= List.length (work_packages t))%nat
  /\ (0 <= Status.remaining
             (get_status (team_of (execute_work_packages w fuel t))))%Z
  /\ (Z.of_nat (Status.completed
                  (get_status (team_of (execute_work_packages w fuel t))))
      + Status.remaining
          (get_status (team_of (execute_work_packages w fuel t)))
      = Z.of_nat (Status.total
                    (get_status (team_of (execute_work_packages w fuel t)))))%Z.
Proof.
  intros Hfresh.
  destruct (run_start_consistent w t Hfresh) as [_ Hcnt].
  assert (Hc := execute_loop_counted w fuel (run_start t) Hcnt).
  assert (Hf := execute_loop_frame w fuel (run_start t)).
  destruct (execute_work_packages_fields fuel t) as [Hcp [Hwp _]].
  destruct Hf as [Hwp1 _]. unfold counted in Hc. rewrite Hwp1 in Hc.
  cbn [run_start logger set_state work_packages] in Hwp, Hc.
  assert (Hle := filter_length_le
                   (done_ok (completed_packages
                               (team_of (execute_loop w fuel (run_start t)))))
                   (work_packages t)).
  unfold get_status. cbn [Status.remaining Status.completed Status.total].
  rewrite Hcp, Hwp. lia.
Qed.

(** When [execute_work_packages] returns, nothing runnable is left: on a
    run started from a fresh team, every package is then either
    completed or has a dependency that is not, and
    [_get_available_packages] is empty. *)
Theorem returned_run_leaves_nothing_runnable
        (fuel : nat) (t t' : CodingTeam) :
  fresh t ->
  execute_work_packages w fuel t = Returned t' ->
  _get_available_packages t' = []
  /\ forall p, In p (work_packages t') ->
       In (package_id p) (completed_packages t')
       \/ exists d, In d (get_dependencies p)
                    /\ ~ In d (completed_packages t').
Proof.
  intros Hfresh Hrun. rewrite execute_work_packages_loop in Hrun.
  destruct (run_start_consistent w t Hfresh) as [_ Hcnt].
  assert (Hc := execute_loop_counted w fuel (run_start t) Hcnt).
  destruct (execute_loop w fuel (run_start t)) as [t1 | |] eqn:Hloop;
    try discriminate.
  injection Hrun as <-. cbn [team_of] in Hc.
  unfold _get_available_packages.
  cbn [logger completed_packages work_packages].
  apply execute_loop_returned in Hloop as [[G _] | [t0 [-> [Hav _]]]].
  - apply Nat.ltb_ge in G. unfold counted in Hc.
    assert (Hle := filter_length_le (done_ok (completed_packages t1))
                                    (work_packages t1)).
    assert (Hall : forallb (done_ok (completed_packages t1))
                           (work_packages t1) = true).
    { apply filter_length_forallb. lia. }
    rewrite forallb_forall in Hall.
    assert (Hdone : forall p, In p (work_packages t1) ->
                      In (package_id p) (completed_packages t1)).
    { intros p Hp. specialize (Hall p Hp). now apply done_ok_spec in Hall. }
    split; [now apply available_from_none | auto].
  - cbn [logger completed_packages work_packages] in *.
    split; [exact Hav |]. intros p Hp.
    destruct (Py.mem (package_id p) (completed_packages t0)) eqn:E.
    + left. now apply mem_In.
    + right. apply mem_false_In in E.
      now apply nothing_available with (pkgs := work_packages t0).
Qed.

(** When the packages of the run have distinct ids, no id is ever
    recorded completed twice; and the ids recorded are always ids of
    packages of the run. *)
Theorem completed_ids_unique (fuel : nat) (t : CodingTeam) :
  fresh t ->
  NoDup (map package_id (work_packages t)) ->
  NoDup (completed_packages (team_of (execute_work_packages w fuel t)))
  /\ forall id,
       In id (completed_packages (team_of (execute_work_packages w fuel t))) ->
       In id (map package_id (work_packages t)).
Proof.
  intros [Hc _] Hnd.
  destruct (execute_work_packages_fields fuel t) as [-> _].
  apply (execute_loop_invariant w
           (fun c => NoDup c
                     /\ forall id, In id c ->
                                   In id (map package_id (work_packages t)))
           (work_packages t)).
  - intros c succ [Hndc Hincl] Hav Hfew. split.
    + apply NoDup_app; [assumption | now apply fewer_NoDup_ids with (l := work_packages t) |].
      intros a Ha Hin. apply in_map_iff in Hin as [p [<- Hp]].
      apply Hav, available_from_In in Hp. tauto.
    + intros id Hid. apply in_app_or in Hid as [Hid | Hid]; [auto |].
      apply in_map_iff in Hid as [p [<- Hp]].
      apply Hav, available_from_In in Hp. apply in_map. tauto.
  - reflexivity.
  - cbn. rewrite Hc. split; [constructor | intros id []].
Qed.

(** The final report lists planned files of completed packages only: on
    a run started from a fresh team, every entry of [artifacts] is the
    path of a file of a package whose id was logged completed, after a
    batch held a package of that id whose worker returned; and
    [files_created] is the number of entries. *)
Theorem report_artifacts_of_completed
        (fuel : nat) (ext : report_externals)
        (objects : string -> option agent_object)
        (t t' : CodingTeam) (x : option string) :
  fresh t ->
  execute_work_packages w fuel t = Returned t' ->
  In x (artifacts (generate_final_report ext objects t')) ->
  files_created (generate_final_report ext objects t')
  = List.length (artifacts (generate_final_report ext objects t'))
  /\ exists p f a batch Q n,
       In p (work_packages t)
       /\ In f (get_files_to_create p) /\ x = file_path f
       /\ In (LogCompleted (package_id p) a) (log t')
       /\ In (LogBatch batch) (log t') /\ In Q batch
       /\ package_id Q = package_id p /\ w n a Q = Returns.
Proof.
  intros Hfresh Hrun Hx. split; [reflexivity |].
  destruct (execute_work_packages_consistent w fuel t Hfresh)
    as [[Hcp Hok] Hwp].
  rewrite Hrun in *. cbn [team_of] in *.
  cbn [generate_final_report artifacts] in Hx. unfold collect_artifacts in Hx.
  apply in_flat_map in Hx as [p [Hp Hx]].
  destruct (Py.mem (package_id p) (completed_packages t')) eqn:E;
    [| contradiction].
  apply in_map_iff in Hx as [f [<- Hf]].
  apply mem_In in E. rewrite Hcp in E.
  apply completed_of_In in E as [a Ha].
  destruct (in_split _ _ Ha) as [l1 [l2 Hsplit]].
  destruct (Hok l1 _ l2 Hsplit) as [batch [Q [n [Hb [HQ [Hid Hw]]]]]].
  exists p, f, a, batch, Q, n. rewrite <- Hwp.
  repeat split; auto.
  rewrite Hsplit. apply in_or_app. now left.
Qed.

(** The scheduler never records a blocked or failed run in the team
    state: whenever [solve_problem] gives a report, the report was
    accepted with a non-empty plan, says [EXECUTING] as final state, and
    the team ends [COMPLETED], also when packages were left blocked. *)
Theorem report_state_ignores_blocking
        (fuel : nat) (ext : report_externals)
        (objects : string -> option agent_object)
        (planned : list package) (t t' : CodingTeam) (r : report) :
  solve_problem w fuel ext objects planned t = Report r t' ->
  planned <> []
  /\ final_state r = EXECUTING
  /\ state t' = COMPLETED
  /\ work_packages t' = planned
  /\ total r = List.length planned.
Proof.
  unfold solve_problem, analyze_problem_systematically. cbv zeta.
  cbn [set_work_packages set_state work_packages].
  destruct planned as [| p0 ps]; [discriminate |].
  set (t1 := set_work_packages (p0 :: ps) _).
  destruct (execute_work_packages_fields fuel t1) as [_ [Hwp [_ [_ Hst]]]].
  destruct (execute_work_packages w fuel t1) as [t2 | |]; try discriminate.
  cbn [team_of] in *. intros H. injection H as <- <-.
  cbn [generate_final_report final_state total set_state state work_packages].
  rewrite Hst, Hwp. cbn. repeat split. discriminate.
Qed.

End SchedulerExtras.

(** * Further properties of routing *)

Lemma agents_get_Some (agents : list string) (name a : string) :
  agents_get agents name = Some a -> a = name /\ In name agents.
Proof.
  unfold agents_get. destruct (Py.mem name agents) eqn:E; [| discriminate].
  intros H. injection H as <-. split; [reflexivity | now apply mem_In].
Qed.

(** Routing only ever answers with a registered agent. *)
Theorem routing_returns_registered_agent
        (agents : list string) (p : package) (a : string) :
  _find_agent_for_package agents p = Some a -> In a agents.
Proof.
  unfold _find_agent_for_package. cbv zeta.
  destruct (Py.mem (mapped_name (get_agent p)) agents) eqn:E.
  - intros H. injection H as <-. now apply mem_In.
  - repeat (destruct (any_type_in _ _);
            [intros H; apply agents_get_Some in H as [-> H]; exact H |]).
    intros H. apply agents_get_Some in H as [-> H]. exact H.
Qed.

(** Routing finds an agent for every package as soon as the six
    specialists are registered, whatever its tag and files; registering
    the default alone is not enough. *)
Theorem routing_total_with_specialists
        (agents : list string) (p : package) :
  incl specialists agents ->
  exists a, _find_agent_for_package agents p = Some a.
Proof.
  intros Hincl.
  assert (H : forall n, In n specialists -> agents_get agents n = Some n).
  { intros n Hn. apply agents_get_In. now apply Hincl. }
  unfold _find_agent_for_package. cbv zeta.
  destruct (Py.mem _ agents); [eauto |].
  repeat (destruct (any_type_in _ _); [rewrite H; [eauto | cbn; tauto] |]).
  rewrite H; [eauto | cbn; tauto].
Qed.

(** With only the default registered, a package with a Python file and an
    unknown tag finds no agent. *)
Example default_alone_not_enough :
  _find_agent_for_package ["fullstack_specialist"]
    (mkPackage "WP001" (Some "unknown_tag")
               (Some [mkFile (Some "src/main.py")]) None)
  = None.
Proof. reflexivity. Qed.

(** [_get_file_type] answers one of eleven names; [data] and [docker],
    which [_find_agent_for_package] also looks for, are not among them. *)
Theorem file_type_range (path : string) :
  In (_get_file_type path) file_type_names
  /\ _get_file_type path <> "data"
  /\ _get_file_type path <> "docker".
Proof.
  unfold _get_file_type. cbv zeta.
  repeat match goal with
         | |- context [if ?b then _ else _] => destruct b
         end;
    (split; [cbn; tauto | split; discriminate]).
Qed.

Lemma falsy_lower (s : string) : Py.falsy (Py.lower s) = Py.falsy s.
Proof. now destruct s. Qed.

(** [_get_file_type] ignores letter case: two paths with the same
    lower-case form get the same type. *)
Theorem file_type_ignores_case (p1 p2 : string) :
  Py.lower p1 = Py.lower p2 -> _get_file_type p1 = _get_file_type p2.
Proof.
  intros H. unfold _get_file_type. cbv zeta.
  rewrite <- (falsy_lower p1), <- (falsy_lower p2), H. reflexivity.
Qed.

(** * The Principle Engineer and the Smart Coding Agent *)

(** The Principle Engineer's [get_next_available_package] agrees with the
    team's scheduler: it returns the first package of
    [_get_available_packages], and [None] exactly when that list is
    empty. *)
Theorem next_available_is_first_available (t : CodingTeam) :
  get_next_available_package (work_packages t) (completed_packages t)
  = hd_error (_get_available_packages t)
  /\ (get_next_available_package (work_packages t) (completed_packages t)
      = None <-> _get_available_packages t = []).
Proof.
  unfold _get_available_packages.
  assert (H : forall ps c,
             get_next_available_package ps c = hd_error (available_from c ps)).
  { intros ps c. induction ps as [| p ps IH];
      cbn [get_next_available_package available_from]; [reflexivity |].
    destruct (Py.mem (package_id p) c); [exact IH |].
    destruct (forallb _ _); [reflexivity | exact IH]. }
  split; [apply H |]. rewrite H.
  destruct (available_from _ _); cbn; split; congruence.
Qed.

Lemma agent_is_spec (name : string) (p : package) :
  agent_is name p = true <-> agent p = Some name.
Proof.
  unfold agent_is. destruct (agent p) as [a |]; [| split; discriminate].
  rewrite String.eqb_eq. split; congruence.
Qed.

(** The packages [get_work_package_by_agent] lists under an alias of
    [agent_mapping] are all routed to the alias's specialist, when it is
    registered; a package without a tag is listed under no name. *)
Theorem packages_by_agent_routed
        (agents : list string) (pkgs : list package)
        (alias target : string) (p : package) :
  Py.dict_get agent_mapping alias = Some target ->
  In target agents ->
  In p (get_work_package_by_agent pkgs alias) ->
  In p pkgs
  /\ agent p = Some alias
  /\ _find_agent_for_package agents p = Some target.
Proof.
  intros Hmap Hreg Hin. unfold get_work_package_by_agent in Hin.
  apply filter_In in Hin as [Hp Hag]. apply agent_is_spec in Hag.
  split; [assumption |]. split; [assumption |].
  unfold _find_agent_for_package, mapped_name, get_agent. cbv zeta.
  rewrite Hag, Hmap. apply mem_In in Hreg. now rewrite Hreg.
Qed.

Section Extensions.

Lemma split_nonempty (sep : ascii) (s : string) : split sep s <> [].
Proof.
  destruct s as [| c t]; cbn [split]; [discriminate |].
  destruct (Ascii.eqb c sep); [discriminate |].
  destruct (split sep t); discriminate.
Qed.

Lemma split_app_sep (sep : ascii) (pre e : string) :
  split sep (pre ++ String sep e)%string = split sep pre ++ split sep e.
Proof.
  induction pre as [| c pre IH]; cbn [String.append split].
  - now rewrite Ascii.eqb_refl.
  - destruct (Ascii.eqb c sep); [now rewrite IH |].
    rewrite IH. destruct (split sep pre) as [| h r] eqn:E.
    + now apply split_nonempty in E.
    + reflexivity.
Qed.

Lemma last_app_nonempty {A : Type} (l l' : list A) (d : A) :
  l' <> [] -> last (l ++ l') d = last l' d.
Proof.
  intros Hne. induction l as [| x l IH]; [reflexivity |].
  cbn [app]. destruct (l ++ l') as [| y r] eqn:E.
  - apply app_eq_nil in E as [_ E]. contradiction.
  - exact IH.
Qed.

Lemma last_map_comm {A B : Type} (f : A -> B) (l : list A) (d : A) :
  last (map f l) (f d) = f (last l d).
Proof.
  induction l as [| x l IH]; [reflexivity |].
  cbn [map]. destruct l as [| y r]; [reflexivity | exact IH].
Qed.

Lemma dotless_cons (c : ascii) (t : string) :
  dotless (String c t) -> Ascii.eqb c "." = false /\ dotless t.
Proof.
  unfold dotless. cbn [Py.contains String.prefix].
  destruct (ascii_dec "." c) as [<- | Hne].
  - destruct t; discriminate.
  - intros H. split; [| exact H].
    apply Ascii.eqb_neq. congruence.
Qed.

Lemma split_dotless (e : string) : dotless e -> split "." e = [e].
Proof.
  induction e as [| c t IH]; intros H; cbn [split]; [reflexivity |].
  apply dotless_cons in H as [Hc Ht]. now rewrite Hc, (IH Ht).
Qed.

Lemma lower_ascii_dot (c : ascii) :
  Ascii.eqb (Py.lower_ascii c) "." = Ascii.eqb c ".".
Proof. destruct c as [[] [] [] [] [] [] [] []]; reflexivity. Qed.

Lemma lower_ascii_idempotent (c : ascii) :
  Py.lower_ascii (Py.lower_ascii c) = Py.lower_ascii c.
Proof. destruct c as [[] [] [] [] [] [] [] []]; reflexivity. Qed.

Lemma lower_idempotent (s : string) : Py.lower (Py.lower s) = Py.lower s.
Proof.
  induction s as [| c t IH]; cbn [Py.lower]; [reflexivity |].
  now rewrite lower_ascii_idempotent, IH.
Qed.

Lemma split_lower (s : string) :
  split "." (Py.lower s) = map Py.lower (split "." s).
Proof.
  induction s as [| c t IH]; cbn [Py.lower split]; [reflexivity |].
  rewrite lower_ascii_dot, IH.
  destruct (Ascii.eqb c "."); [reflexivity |].
  destruct (split "." t); reflexivity.
Qed.

Lemma extension_of_lower (s : string) :
  extension_of (Py.lower s) = extension_of s.
Proof.
  unfold extension_of. rewrite split_lower.
  change EmptyString with (Py.lower EmptyString) at 1.
  now rewrite last_map_comm, lower_idempotent.
Qed.

Lemma endswith1_app (s suffix : string) :
  Py.endswith1 s suffix = true -> exists pre, s = (pre ++ suffix)%string.
Proof.
  induction s as [| c t IH]; cbn [Py.endswith1]; intros H.
  - apply orb_true_iff in H as [H | H]; [| discriminate].
    apply String.eqb_eq in H. exists EmptyString. exact H.
  - apply orb_true_iff in H as [H | H].
    + apply String.eqb_eq in H. exists EmptyString. exact H.
    + destruct (IH H) as [pre ->]. now exists (String c pre).
Qed.

(** [_determine_file_type] looks only at what follows the last dot: for
    a dotless [e], the path [pre.e] has the type of [e] alone, whatever
    the directories and the name before it. *)
Theorem determine_file_type_by_extension (pre e : string) :
  dotless e ->
  extension_of (pre ++ String "." e) = Py.lower e
  /\ _determine_file_type (pre ++ String "." e) = _determine_file_type e.
Proof.
  intros He.
  assert (H1 : extension_of (pre ++ String "." e) = Py.lower e).
  { unfold extension_of.
    rewrite split_app_sep, last_app_nonempty by apply split_nonempty.
    now rewrite split_dotless. }
  assert (H2 : extension_of e = Py.lower e).
  { unfold extension_of. now rewrite split_dotless. }
  split; [exact H1 |]. unfold _determine_file_type. cbv zeta.
  now rewrite H1, H2.
Qed.

(** [_determine_file_type] ignores letter case. *)
Theorem determine_file_type_ignores_case (p1 p2 : string) :
  Py.lower p1 = Py.lower p2 ->
  _determine_file_type p1 = _determine_file_type p2.
Proof.
  intros H. unfold _determine_file_type. cbv zeta.
  now rewrite <- (extension_of_lower p1), <- (extension_of_lower p2), H.
Qed.

Lemma determine_by_suffix (path suffix ty : string) (e : string) :
  Py.endswith1 (Py.lower path) suffix = true ->
  suffix = String "." e -> dotless e ->
  _determine_file_type e = ty ->
  _determine_file_type path = ty.
Proof.
  intros Hend -> He Hty.
  apply endswith1_app in Hend as [pre Hpre].
  rewrite (determine_file_type_ignores_case path (Py.lower path))
    by (symmetry; apply lower_idempotent).
  rewrite Hpre.
  now rewrite (proj2 (determine_file_type_by_extension pre e He)).
Qed.

(** The team and its agents agree on markup and style files: a path the
    team's [_get_file_type] calls [html] or [css] is given the same type
    by the agent's [_determine_file_type]. *)
Theorem file_types_agree_on_markup (path ty : string) :
  ty = "html" \/ ty = "css" ->
  _get_file_type path = ty ->
  _determine_file_type path = ty.
Proof.
  intros Hty. unfold _get_file_type. cbv zeta.
  destruct (Py.falsy path); [destruct Hty; subst; discriminate |].
  destruct (Py.any_in _ ["test"; "spec"]); [destruct Hty; subst; discriminate |].
  destruct (Py.endswith _ [".py"; ".pyx"]); [destruct Hty; subst; discriminate |].
  destruct (Py.endswith _ [".js"; ".ts"; ".jsx"; ".tsx"]);
    [destruct Hty; subst; discriminate |].
  destruct (Py.endswith _ [".html"; ".htm"]) eqn:Ehtml.
  - intros <-. unfold Py.endswith in Ehtml. cbn [existsb] in Ehtml.
    apply orb_true_iff in Ehtml as [E | E];
      [| apply orb_true_iff in E as [E | E]; [| discriminate]].
    + now apply (determine_by_suffix path ".html" "html" "html" E).
    + now apply (determine_by_suffix path ".htm" "html" "htm" E).
  - destruct (Py.endswith _ [".css"; ".scss"; ".sass"]) eqn:Ecss.
    + intros <-. unfold Py.endswith in Ecss. cbn [existsb] in Ecss.
      apply orb_true_iff in Ecss as [E | E];
        [| apply orb_true_iff in E as [E | E];
           [| apply orb_true_iff in E as [E | E]; [| discriminate]]].
      * now apply (determine_by_suffix path ".css" "css" "css" E).
      * now apply (determine_by_suffix path ".scss" "css" "scss" E).
      * now apply (determine_by_suffix path ".sass" "css" "sass" E).
    + repeat match goal with
             | |- context [if ?b then _ else _] => destruct b
             end; destruct Hty; subst; discriminate.
Qed.

End Extensions.

(** They disagree elsewhere: a Python test file is [test] for the team
    and [python] for the agent, a [.pyx] file is [python] for the team
    and [generic] for the agent. *)
Example file_types_disagree :
  _get_file_type "tests/test_api.py" = "test"
  /\ _determine_file_type "tests/test_api.py" = "python"
  /\ _get_file_type "fast/kernel.pyx" = "python"
  /\ _determine_file_type "fast/kernel.pyx" = "generic".
Proof. repeat split. Qed.

(** * Project plans *)

Section PlanLemmas.

Import ProjectPlan.

Lemma status_eqb_eq (a b : StepStatus) : status_eqb a b = true <-> a = b.
Proof. destruct a, b; cbn; split; congruence. Qed.

Lemma find_step_app (l l' : list ProjectStep) (id : string) :
  find_step (l ++ l') id
  = match find_step l id with
    | Some s => Some s
    | None => find_step l' id
    end.
Proof.
  induction l as [| s l IH]; cbn [app find_step]; [reflexivity |].
  destruct (String.eqb (step_id s) id); [reflexivity | exact IH].
Qed.

Lemma dependencies_met_true (p : plan) (deps : list string) :
  dependencies_met p deps = Ok true <->
  forall d, In d deps ->
    exists sd, get_step_by_id p d = Some sd /\ status sd = COMPLETED.
Proof.
  induction deps as [| d deps IH]; cbn [dependencies_met].
  - split; [intros _ d [] | reflexivity].
  - destruct (get_step_by_id p d) as [sd |] eqn:E.
    + destruct (status_eqb (status sd) COMPLETED) eqn:Es.
      * apply status_eqb_eq in Es. rewrite IH. split.
        -- intros H x [<- | Hx]; [eauto | auto].
        -- intros H x Hx. apply H. now right.
      * split; [discriminate |]. intros H.
        destruct (H d (or_introl eq_refl)) as [sd' [Hsd Hst]].
        rewrite E in Hsd. injection Hsd as <-.
        apply status_eqb_eq in Hst. congruence.
    + split; [discriminate |]. intros H.
      destruct (H d (or_introl eq_refl)) as [sd' [Hsd _]]. congruence.
Qed.

Lemma dependencies_met_false (p : plan) (deps : list string) :
  dependencies_met p deps = Ok false ->
  exists d sd, In d deps /\ get_step_by_id p d = Some sd
               /\ status sd <> COMPLETED.
Proof.
  induction deps as [| d deps IH]; cbn [dependencies_met]; [discriminate |].
  destruct (get_step_by_id p d) as [sd |] eqn:E; [| discriminate].
  destruct (status_eqb (status sd) COMPLETED) eqn:Es.
  - intros H. destruct (IH H) as [d' [sd' [Hin H']]].
    exists d', sd'. split; [now right | exact H'].
  - intros _. exists d, sd. split; [now left |]. split; [exact E |].
    intros Hc. apply status_eqb_eq in Hc. congruence.
Qed.

Lemma dependencies_met_error (p : plan) (deps : list string) :
  dependencies_met p deps = AttributeError ->
  exists d, In d deps /\ get_step_by_id p d = None.
Proof.
  induction deps as [| d deps IH]; cbn [dependencies_met]; [discriminate |].
  destruct (get_step_by_id p d) as [sd |] eqn:E.
  - destruct (status_eqb (status sd) COMPLETED); [| discriminate].
    intros H. destruct (IH H) as [d' [Hin H']]. exists d'. split; [now right | exact H'].
  - intros _. exists d. split; [now left | exact E].
Qed.

(** What the loop of [get_next_step] found when it returns position [k]:
    a pending step with all dependencies completed, after steps that are
    not pending or wait for a dependency. *)
Lemma next_step_from_some (p : plan) (l : list ProjectStep) (i k : nat) :
  next_step_from p l i = Ok (Some k) ->
  exists j s,
    k = i + j /\ nth_error l j = Some s
    /\ status s = PENDING
    /\ dependencies_met p (dependencies s) = Ok true.
Proof.
  revert i. induction l as [| s l IH]; intros i; cbn [next_step_from];
    [discriminate |].
  destruct (status_eqb (status s) PENDING) eqn:Es.
  - destruct (dependencies_met p (dependencies s)) as [| [|]] eqn:Ed;
      [discriminate | |].
    + intros H. injection H as <-. exists 0, s.
      apply status_eqb_eq in Es. repeat split; auto.
    + intros H. destruct (IH _ H) as [j [s' [-> H']]].
      exists (S j), s'. split; [lia | exact H'].
  - intros H. destruct (IH _ H) as [j [s' [-> H']]].
    exists (S j), s'. split; [lia | exact H'].
Qed.

Lemma next_step_from_none (p : plan) (l : list ProjectStep) (i : nat) :
  next_step_from p l i = Ok None ->
  forall s, In s l -> status s = PENDING ->
    dependencies_met p (dependencies s) = Ok false.
Proof.
  revert i. induction l as [| s l IH]; intros i; cbn [next_step_from];
    [intros _ s [] |].
  destruct (status_eqb (status s) PENDING) eqn:Es.
  - destruct (dependencies_met p (dependencies s)) as [| [|]] eqn:Ed;
      try discriminate.
    intros H x [<- | Hx] Hst; [exact Ed | exact (IH _ H x Hx Hst)].
  - intros H x [<- | Hx] Hst.
    + apply status_eqb_eq in Hst. congruence.
    + exact (IH _ H x Hx Hst).
Qed.

Lemma next_step_from_error (p : plan) (l : list ProjectStep) (i : nat) :
  next_step_from p l i = AttributeError ->
  exists s, In s l /\ status s = PENDING
            /\ dependencies_met p (dependencies s) = AttributeError.
Proof.
  revert i. induction l as [| s l IH]; intros i; cbn [next_step_from];
    [discriminate |].
  destruct (status_eqb (status s) PENDING) eqn:Es.
  - destruct (dependencies_met p (dependencies s)) as [| [|]] eqn:Ed;
      try discriminate.
    + intros _. exists s. apply status_eqb_eq in Es. auto using in_eq.
    + intros H. destruct (IH _ H) as [s' [Hin H']]. exists s'.
      split; [now right | exact H'].
  - intros H. destruct (IH _ H) as [s' [Hin H']]. exists s'.
    split; [now right | exact H'].
Qed.

Lemma update_nth_same (f : ProjectStep -> ProjectStep)
      (l : list ProjectStep) (i : nat) (s : ProjectStep) :
  nth_error l i = Some s -> nth_error (update_nth i f l) i = Some (f s).
Proof.
  revert i. induction l as [| x l IH]; intros [| i]; cbn; try discriminate.
  - congruence.
  - apply IH.
Qed.

Lemma update_nth_other (f : ProjectStep -> ProjectStep)
      (l : list ProjectStep) (i j : nat) :
  i <> j -> nth_error (update_nth i f l) j = nth_error l j.
Proof.
  revert i j. induction l as [| x l IH]; intros [| i] [| j] H; cbn;
    try reflexivity; try congruence.
  apply IH. congruence.
Qed.

Lemma find_step_update_first (f : ProjectStep -> ProjectStep)
      (l : list ProjectStep) (id id' : string) :
  (forall s, step_id (f s) = step_id s) ->
  find_step (update_first id f l) id'
  = if String.eqb id id' then option_map f (find_step l id')
    else find_step l id'.
Proof.
  intros Hid. induction l as [| s l IH]; cbn [update_first find_step].
  - now destruct (String.eqb id id').
  - destruct (String.eqb (step_id s) id) eqn:E1.
    + apply String.eqb_eq in E1. subst id. cbn [find_step]. rewrite Hid.
      destruct (String.eqb (step_id s) id'); reflexivity.
    + cbn [find_step]. destruct (String.eqb (step_id s) id') eqn:E2.
      * apply String.eqb_eq in E2. subst id'.
        rewrite String.eqb_sym, E1. reflexivity.
      * exact IH.
Qed.

End PlanLemmas.

(** Looking a step up after [add_step]: a step already carrying the id
    is found first, so a step added under an id in use is never found;
    otherwise the added step is found under its own id and nothing
    under another. *)
Theorem add_step_lookup
        (s : ProjectPlan.ProjectStep) (p : ProjectPlan.plan) (id : string) :
  ProjectPlan.get_step_by_id (ProjectPlan.add_step s p) id
  = match ProjectPlan.get_step_by_id p id with
    | Some s0 => Some s0
    | None => if String.eqb (ProjectPlan.step_id s) id then Some s else None
    end.
Proof.
  unfold ProjectPlan.get_step_by_id, ProjectPlan.add_step.
  cbn [ProjectPlan.steps]. rewrite find_step_app. reflexivity.
Qed.

(** The step [get_next_step] returns is a pending step of the plan whose
    dependencies all name completed steps. *)
Theorem get_next_step_ready
        (p : ProjectPlan.plan) (s : ProjectPlan.ProjectStep) :
  ProjectPlan.get_next_step p = ProjectPlan.Ok (Some s) ->
  In s (ProjectPlan.steps p)
  /\ ProjectPlan.status s = ProjectPlan.PENDING
  /\ forall d, In d (ProjectPlan.dependencies s) ->
       exists sd, ProjectPlan.get_step_by_id p d = Some sd
                  /\ ProjectPlan.status sd = ProjectPlan.COMPLETED.
Proof.
  unfold ProjectPlan.get_next_step, ProjectPlan.next_step_index.
  destruct (ProjectPlan.next_step_from p (ProjectPlan.steps p) 0)
    as [| [k |]] eqn:E; try discriminate.
  apply next_step_from_some in E as [j [s' [-> [Hnth [Hst Hdeps]]]]].
  cbn [Nat.add]. rewrite Hnth. intros H. injection H as <-.
  split; [now apply nth_error_In with (n := j) |]. split; [exact Hst |].
  now apply dependencies_met_true.
Qed.

(** When [get_next_step] returns [None], every pending step waits for a
    dependency that names a step which is not completed. *)
Theorem get_next_step_none
        (p : ProjectPlan.plan) (s : ProjectPlan.ProjectStep) :
  ProjectPlan.get_next_step p = ProjectPlan.Ok None ->
  In s (ProjectPlan.steps p) ->
  ProjectPlan.status s = ProjectPlan.PENDING ->
  exists d sd,
    In d (ProjectPlan.dependencies s)
    /\ ProjectPlan.get_step_by_id p d = Some sd
    /\ ProjectPlan.status sd <> ProjectPlan.COMPLETED.
Proof.
  unfold ProjectPlan.get_next_step, ProjectPlan.next_step_index.
  destruct (ProjectPlan.next_step_from p (ProjectPlan.steps p) 0)
    as [| [k |]] eqn:E; try discriminate.
  - destruct (next_step_from_some _ _ _ _ E) as [j [s' [-> [Hnth _]]]].
    cbn [Nat.add]. now rewrite Hnth.
  - intros _ Hin Hst. apply dependencies_met_false.
    exact (next_step_from_none _ _ _ E s Hin Hst).
Qed.

(** [get_next_step] raises only on a dangling reference: when it raises
    [AttributeError], some pending step declares a dependency that names
    no step of the plan. *)
Theorem get_next_step_raises_on_missing (p : ProjectPlan.plan) :
  ProjectPlan.get_next_step p = ProjectPlan.AttributeError ->
  (exists s d,
     In s (ProjectPlan.steps p)
     /\ ProjectPlan.status s = ProjectPlan.PENDING
     /\ In d (ProjectPlan.dependencies s)
     /\ ProjectPlan.get_step_by_id p d = None)
  /\ ~ ProjectPlan.resolved p.
Proof.
  unfold ProjectPlan.get_next_step, ProjectPlan.next_step_index.
  destruct (ProjectPlan.next_step_from p (ProjectPlan.steps p) 0)
    as [| [k |]] eqn:E; try discriminate.
  intros _. apply next_step_from_error in E as [s [Hin [Hst Herr]]].
  apply dependencies_met_error in Herr as [d [Hd Hnone]].
  split; [exists s, d; auto |].
  intros Hres. exact (Hres s d Hin Hd Hnone).
Qed.

(** The counts of [get_progress_summary] add up: with the pending steps
    they make the total; and [is_complete] holds exactly when the
    completed steps make the total. *)
Theorem progress_summary_adds_up (p : ProjectPlan.plan) :
  (ProjectPlan.completed_steps (ProjectPlan.get_progress_summary p)
   + ProjectPlan.in_progress_steps (ProjectPlan.get_progress_summary p)
   + ProjectPlan.blocked_steps (ProjectPlan.get_progress_summary p)
   + ProjectPlan.failed_steps (ProjectPlan.get_progress_summary p)
   + ProjectPlan.count_status ProjectPlan.PENDING p
   = ProjectPlan.total_steps (ProjectPlan.get_progress_summary p))%nat
  /\ (ProjectPlan.is_complete p = true <->
      ProjectPlan.completed_steps (ProjectPlan.get_progress_summary p)
      = ProjectPlan.total_steps (ProjectPlan.get_progress_summary p)).
Proof.
  unfold ProjectPlan.get_progress_summary, ProjectPlan.count_status,
    ProjectPlan.is_complete.
  cbn [ProjectPlan.completed_steps ProjectPlan.in_progress_steps
       ProjectPlan.blocked_steps ProjectPlan.failed_steps
       ProjectPlan.total_steps].
  split.
  - induction (ProjectPlan.steps p) as [| s l IH]; cbn [filter List.length];
      [reflexivity |].
    destruct (ProjectPlan.status s); cbn; lia.
  - split.
    + intros H. f_equal. apply filter_all. now apply forallb_forall.
    + apply filter_length_forallb.
Qed.

(** [initiate_next_step] starts a step only when it is pending with all
    dependencies completed; it starts the step [get_next_step] returns,
    at its position, and leaves every other step as it was. *)
Theorem initiate_next_step_starts_ready
        (now : nat) (p p' : ProjectPlan.plan) :
  ProjectPlan.initiate_next_step now p = ProjectPlan.Ok p' ->
  (p' = p /\ ProjectPlan.get_next_step p = ProjectPlan.Ok None)
  \/ exists i s,
       nth_error (ProjectPlan.steps p) i = Some s
       /\ ProjectPlan.get_next_step p = ProjectPlan.Ok (Some s)
       /\ ProjectPlan.status s = ProjectPlan.PENDING
       /\ (forall d, In d (ProjectPlan.dependencies s) ->
             exists sd, ProjectPlan.get_step_by_id p d = Some sd
                        /\ ProjectPlan.status sd = ProjectPlan.COMPLETED)
       /\ nth_error (ProjectPlan.steps p') i
          = Some (ProjectPlan.start_step now s)
       /\ forall j, j <> i ->
            nth_error (ProjectPlan.steps p') j
            = nth_error (ProjectPlan.steps p) j.
Proof.
  unfold ProjectPlan.initiate_next_step, ProjectPlan.get_next_step,
    ProjectPlan.next_step_index.
  destruct (ProjectPlan.next_step_from p (ProjectPlan.steps p) 0)
    as [| [k |]] eqn:E; try discriminate.
  - intros H. injection H as <-. right.
    apply next_step_from_some in E as [j [s [-> [Hnth [Hst Hdeps]]]]].
    cbn [Nat.add ProjectPlan.steps]. exists j, s.
    split; [exact Hnth |]. split; [now rewrite Hnth |].
    split; [exact Hst |]. split; [now apply dependencies_met_true |].
    split; [now apply update_nth_same |].
    intros j' Hj. apply update_nth_other. congruence.
  - intros H. injection H as <-. now left.
Qed.

(** [handle_step_completion] completes the step that [get_step_by_id]
    finds under the id and no other: afterwards that id gives the
    completed step, every other id gives what it gave before, and an id
    that names no step changes nothing. *)
Theorem handle_step_completion_lookup
        (now : nat) (id id' : string) (new_artifacts : option (list string))
        (p : ProjectPlan.plan) :
  ProjectPlan.get_step_by_id
    (ProjectPlan.handle_step_completion now id new_artifacts p) id'
  = if String.eqb id id'
    then option_map (ProjectPlan.complete_step now new_artifacts)
                    (ProjectPlan.get_step_by_id p id')
    else ProjectPlan.get_step_by_id p id'.
Proof.
  unfold ProjectPlan.get_step_by_id, ProjectPlan.handle_step_completion.
  cbn [ProjectPlan.steps]. apply find_step_update_first. reflexivity.
Qed.

(** * Parsing the model's replies *)

Section JsonSpan.

Lemma contains_char_cons (c x : ascii) (t : string) :
  Py.contains (String x t) (String c EmptyString)
  = Ascii.eqb c x || Py.contains t (String c EmptyString).
Proof.
  cbn [Py.contains String.prefix].
  destruct (ascii_dec c x) as [<- | Hne].
  - rewrite Ascii.eqb_refl. now destruct t.
  - apply Ascii.eqb_neq in Hne. now rewrite Hne.
Qed.

Lemma prefix_char_cons (c x : ascii) (t : string) :
  String.prefix (String c EmptyString) (String x t) = Ascii.eqb c x.
Proof.
  cbn [String.prefix]. destruct (ascii_dec c x) as [<- | Hne].
  - rewrite Ascii.eqb_refl. now destruct t.
  - apply Ascii.eqb_neq in Hne. now rewrite Hne.
Qed.

Lemma contains_app_char (pre rest : string) (c : ascii) :
  Py.contains (pre ++ String c rest) (String c EmptyString) = true.
Proof.
  induction pre as [| x pre IH]; cbn [String.append].
  - now rewrite contains_char_cons, Ascii.eqb_refl.
  - rewrite contains_char_cons, IH. apply orb_true_r.
Qed.

Lemma str_find_app (pre rest : string) (c : ascii) :
  Py.contains pre (String c EmptyString) = false ->
  str_find (pre ++ String c rest) (String c EmptyString)
  = Z.of_nat (String.length pre).
Proof.
  induction pre as [| x pre IH]; intros H; cbn [String.append].
  - cbn [str_find]. now rewrite prefix_char_cons, Ascii.eqb_refl.
  - rewrite contains_char_cons in H. apply orb_false_iff in H as [Hx Hpre].
    cbn [str_find]. rewrite prefix_char_cons, Hx, (IH Hpre).
    cbn [String.length].
    destruct (Z.of_nat (String.length pre) <? 0)%Z eqn:E; [| lia].
    apply Z.ltb_lt in E. lia.
Qed.

Lemma str_rfind_absent (s : string) (c : ascii) :
  Py.contains s (String c EmptyString) = false ->
  str_rfind s (String c EmptyString) = (-1)%Z.
Proof.
  induction s as [| x s IH]; intros H; [reflexivity |].
  rewrite contains_char_cons in H. apply orb_false_iff in H as [Hx Hs].
  cbn [str_rfind]. rewrite (IH Hs), prefix_char_cons, Hx. reflexivity.
Qed.

Lemma str_rfind_app (pre post : string) (c : ascii) :
  Py.contains post (String c EmptyString) = false ->
  str_rfind (pre ++ String c post) (String c EmptyString)
  = Z.of_nat (String.length pre).
Proof.
  intros H. induction pre as [| x pre IH]; cbn [String.append].
  - cbn [str_rfind]. rewrite (str_rfind_absent post c H), prefix_char_cons,
      Ascii.eqb_refl. reflexivity.
  - cbn [str_rfind]. rewrite IH. cbn [String.length].
    destruct (0 <=? Z.of_nat (String.length pre))%Z eqn:E; [lia |].
    apply Z.leb_gt in E. lia.
Qed.

Lemma length_append (a b : string) :
  String.length (a ++ b) = (String.length a + String.length b)%nat.
Proof. induction a as [| x a IH]; cbn; [reflexivity | now rewrite IH]. Qed.

Lemma str_append_assoc (a b c : string) :
  ((a ++ b) ++ c = a ++ (b ++ c))%string.
Proof. induction a as [| x a IH]; cbn; [reflexivity | now rewrite IH]. Qed.

Lemma substring_prefix (mid post : string) :
  String.substring 0 (String.length mid) (mid ++ post) = mid.
Proof.
  induction mid as [| x mid IH]; cbn.
  - now destruct post.
  - now rewrite IH.
Qed.

Lemma substring_middle (pre mid post : string) :
  String.substring (String.length pre) (String.length mid)
                   (pre ++ mid ++ post) = mid.
Proof.
  induction pre as [| x pre IH]; cbn [String.length String.append].
  - apply substring_prefix.
  - cbn [String.substring]. exact IH.
Qed.

Lemma str_slice_middle (pre mid post : string) :
  str_slice (pre ++ mid ++ post)
            (Z.of_nat (String.length pre))
            (Z.of_nat (String.length pre + String.length mid))
  = mid.
Proof.
  unfold str_slice, slice_bound. cbv zeta.
  rewrite !length_append.
  destruct (Z.of_nat (String.length pre) <? 0)%Z eqn:E1;
    [apply Z.ltb_lt in E1; lia |].
  destruct (Z.of_nat (String.length pre + String.length mid) <? 0)%Z eqn:E2;
    [apply Z.ltb_lt in E2; lia |].
  rewrite !Nat2Z.id.
  replace (Nat.min (String.length pre) _) with (String.length pre) by lia.
  replace (Nat.min (String.length pre + String.length mid) _
           - String.length pre)%nat
    with (String.length mid) by lia.
  apply substring_middle.
Qed.

End JsonSpan.

(** [_parse_json_response] ignores what surrounds the braces: on a reply
    that wraps [{body}] in a text without an opening brace before it and
    without a closing brace after it, [json.loads] is given exactly
    [{body}], for a dict with [content] as for any other object. *)
Theorem parse_json_ignores_surrounding_text
        (J : Type) (loads : string -> option J) (pre body post : string) :
  Py.contains pre "{" = false ->
  Py.contains post "}" = false ->
  _parse_json_response J loads
    (RespOther (pre ++ String "{" (body ++ String "}" post)))
  = json_loads J loads (String "{" (body ++ "}"))
  /\ _parse_json_response J loads
       (RespDict (Some (pre ++ String "{" (body ++ String "}" post))%string))
     = json_loads J loads (String "{" (body ++ "}")).
Proof.
  intros Hpre Hpost.
  assert (H : forall content,
             content = (pre ++ String "{" (body ++ String "}" post))%string ->
             (if Py.contains content "{" && Py.contains content "}"
              then json_loads J loads
                     (str_slice content (str_find content "{")
                                (str_rfind content "}" + 1))
              else json_loads J loads content)
             = json_loads J loads (String "{" (body ++ "}"))).
  { intros content ->.
    rewrite contains_app_char.
    assert (E : (pre ++ String "{" (body ++ String "}" post))%string
                = ((pre ++ String "{" body) ++ String "}" post)%string).
    { rewrite str_append_assoc. reflexivity. }
    rewrite E at 1. rewrite contains_app_char. cbn [andb].
    rewrite (str_find_app pre _ "{" Hpre).
    rewrite E at 2. rewrite (str_rfind_app _ post "}" Hpost).
    assert (E2 : (pre ++ String "{" (body ++ String "}" post))%string
                 = (pre ++ String "{" (body ++ "}") ++ post)%string).
    { f_equal. cbn [String.append]. f_equal.
      rewrite str_append_assoc. reflexivity. }
    rewrite E2.
    replace (Z.of_nat (String.length (pre ++ String "{" body)) + 1)%Z
      with (Z.of_nat (String.length pre
                      + String.length (String "{" (body ++ "}")))).
    - now rewrite str_slice_middle.
    - rewrite !length_append. cbn [String.length].
      rewrite length_append. cbn [String.length]. lia. }
  split; apply H; reflexivity.
Qed.

(** A closing brace that comes before the only opening brace gives
    [json.loads] the empty string. *)
Example parse_json_reversed_braces (J : Type) (loads : string -> option J) :
  _parse_json_response J loads (RespOther "} not json {")
  = json_loads J loads EmptyString.
Proof. reflexivity. Qed.

(** * The Smart Coding Agent at work *)

Section AgentExecution.

Variable env : agent_env.

Lemma handle_exception_returns (id : string) (a : SmartCodingAgent) :
  fail_current_step env <> Exn ->
  snd (handle_exception env id a) = true
  /\ agent_completed_packages (fst (handle_exception env id a))
     = agent_completed_packages a
  /\ In (ReportBlocker id) (agent_log (fst (handle_exception env id a))).
Proof.
  intros H. unfold handle_exception. cbv zeta.
  destruct (fail_current_step env); [| contradiction].
  cbn. repeat split. apply in_or_app. right. now left.
Qed.

(** Without exceptions the loop over the files runs to its end; it
    creates no more files than the package lists, and none when every
    write is refused. *)
Lemma create_files_finishes (files : list file_spec) (i : nat)
      (created : list string) (events : list agent_event) :
  (forall j path, generate_file_content env j path <> Exn) ->
  (forall path c, write_file env path c <> Exn) ->
  exists created' events',
    create_files env i files created events = (created', events', true)
    /\ (List.length created'
        <= List.length created + List.length files)%nat
    /\ ((forall path c, write_file env path c = Ret false) ->
        created' = created).
Proof.
  intros Hgen Hwrite. revert i created events.
  induction files as [| f rest IH]; intros i created events;
    cbn [create_files].
  - exists created, events. repeat split. lia.
  - assert (Hskip : exists created' events',
               create_files env (S i) rest created events
               = (created', events', true)
               /\ (List.length created'
                   <= List.length created + List.length (f :: rest))%nat
               /\ ((forall path c, write_file env path c = Ret false) ->
                   created' = created)).
    { destruct (IH (S i) created events) as [c' [e' [H1 [H2 H3]]]].
      exists c', e'. cbn [List.length]. repeat split; auto. lia. }
    destruct (file_path f) as [[| c path'] |]; try exact Hskip.
    destruct (generate_file_content env i (String c path')) as [content |] eqn:Eg;
      [| now apply Hgen in Eg].
    destruct content as [| c0 content'].
    + destruct (IH (S i) created (events ++ [NoContent (String c path')]))
        as [c' [e' [H1 [H2 H3]]]].
      exists c', e'. cbn [List.length]. repeat split; auto. lia.
    + destruct (write_file env (String c path') (String c0 content'))
        as [[|] |] eqn:Ew; [| | now apply Hwrite in Ew].
      * destruct (IH (S i) (created ++ [String c path'])
                     (events ++ [FileCreated (String c path')]))
          as [c' [e' [H1 [H2 H3]]]].
        exists c', e'. rewrite length_app in H2. cbn [List.length] in *.
        repeat split; auto; [lia |].
        intros Hall. rewrite Hall in Ew. discriminate.
      * destruct (IH (S i) created
                     (events ++ [FileNotCreated (String c path')]))
          as [c' [e' [H1 [H2 H3]]]].
        exists c', e'. cbn [List.length]. repeat split; auto. lia.
Qed.

(** [execute_work_package] absorbs the errors of generation and writing:
    when the start signal and [fail_current_step] do not raise, the call
    returns whatever the other collaborators do. *)
Theorem agent_absorbs_errors (a : SmartCodingAgent) (p : package) :
  signal_step_start env <> Exn ->
  fail_current_step env <> Exn ->
  snd (execute_work_package env a p) = true.
Proof.
  intros Hstart Hfail. unfold execute_work_package. cbv zeta.
  destruct (signal_step_start env); [| contradiction].
  destruct (create_files env 0 _ [] _) as [[created events] [|]].
  - destruct (signal_step_success env); [reflexivity |].
    now apply handle_exception_returns.
  - now apply handle_exception_returns.
Qed.

(** The agent records a package as completed as soon as nothing raised,
    whether or not any file was created: it reports a number of created
    files that is at most the number of files of the package, and zero
    when every write is refused. *)
Theorem agent_completes_without_files (a : SmartCodingAgent) (p : package) :
  signal_step_start env <> Exn ->
  signal_step_success env <> Exn ->
  (forall j path, generate_file_content env j path <> Exn) ->
  (forall path c, write_file env path c <> Exn) ->
  snd (execute_work_package env a p) = true
  /\ agent_completed_packages (fst (execute_work_package env a p))
     = agent_completed_packages a ++ [package_id p]
  /\ exists n,
       In (ReportProgress (package_id p) n)
          (agent_log (fst (execute_work_package env a p)))
       /\ (n <= List.length (get_files_to_create p))%nat
       /\ ((forall path c, write_file env path c = Ret false) -> n = 0).
Proof.
  intros Hstart Hsucc Hgen Hwrite. unfold execute_work_package. cbv zeta.
  destruct (signal_step_start env); [| contradiction].
  destruct (create_files_finishes (get_files_to_create p) 0 []
              (agent_log a) Hgen Hwrite) as [created [events [-> [Hlen Hnone]]]].
  destruct (signal_step_success env); [| contradiction].
  cbn [fst snd agent_completed_packages agent_log].
  split; [reflexivity |]. split; [reflexivity |].
  exists (List.length created). split; [| split].
  - apply in_or_app. right. now left.
  - cbn in Hlen. lia.
  - intros Hall. now rewrite (Hnone Hall).
Qed.

(** The team records as completed what the agent gave up on: when the
    generation of the first file raises, the agent reports a blocker
    and leaves its own list of completed packages alone, yet its
    [execute_step] returns, so the team logs the package as completed and
    adds its id to [completed_packages]. *)
Theorem team_completes_what_agent_failed
        (a : SmartCodingAgent) (t : CodingTeam) (p : package) (ag : string)
        (f : file_spec) (rest : list file_spec) (c : ascii) (path' : string) :
  signal_step_start env <> Exn ->
  fail_current_step env <> Exn ->
  _find_agent_for_package (agents t) p = Some ag ->
  get_files_to_create p = f :: rest ->
  file_path f = Some (String c path') ->
  generate_file_content env 0 (String c path') = Exn ->
  agent_completed_packages (fst (execute_work_package env a p))
  = agent_completed_packages a
  /\ In (ReportBlocker (package_id p))
        (agent_log (fst (execute_work_package env a p)))
  /\ In (package_id p)
        (completed_packages
           (fst (_execute_single_package (agent_worker env a) t p)))
  /\ In (LogCompleted (package_id p) ag)
        (log (fst (_execute_single_package (agent_worker env a) t p))).
Proof.
  intros Hstart Hfail Hroute Hfiles Hpath Hgen.
  assert (Hret := agent_absorbs_errors a p Hstart Hfail).
  assert (Hagent : agent_completed_packages (fst (execute_work_package env a p))
                   = agent_completed_packages a
                   /\ In (ReportBlocker (package_id p))
                         (agent_log (fst (execute_work_package env a p)))).
  { unfold execute_work_package. cbv zeta.
    destruct (signal_step_start env); [| contradiction].
    rewrite Hfiles. cbn [create_files]. rewrite Hpath, Hgen.
    destruct (handle_exception_returns (package_id p)
                (mkAgent (agent_completed_packages a) (agent_log a)) Hfail)
      as [_ [H1 H2]].
    split; [exact H1 | exact H2]. }
  split; [apply Hagent |]. split; [apply Hagent |].
  - unfold _execute_single_package. cbv zeta. cbn [tick agents dispatched].
    rewrite Hroute. unfold agent_worker. rewrite Hret. cbn.
    split; apply in_or_app; right; now left.
Qed.

End AgentExecution.

(** * Extracting code from the model's replies *)

Section ExtractCode.





Lemma lstrip_idempotent (s : string) : lstrip (lstrip s) = lstrip s.
Proof.
  induction s as [| c t IH]; cbn [lstrip]; [reflexivity |].
  destruct (is_space c) eqn:E; [exact IH |]. cbn [lstrip]. now rewrite E.
Qed.

Lemma rstrip_idempotent (s : string) : rstrip (rstrip s) = rstrip s.
Proof.
  induction s as [| c t IH]; cbn [rstrip]; [reflexivity |].
  destruct (rstrip t) as [| c' t'] eqn:E.
  - destruct (is_space c) eqn:Ec; [reflexivity |].
    cbn [rstrip]. now rewrite Ec.
  - cbn [rstrip]. cbn [rstrip] in IH. now rewrite IH.
Qed.

Lemma rstrip_lstrip (x : string) :
  rstrip x = x -> rstrip (lstrip x) = lstrip x.
Proof.
  induction x as [| c t IH]; intros H; [reflexivity |].
  cbn [lstrip]. destruct (is_space c) eqn:Ec; [| exact H].
  apply IH. cbn [rstrip] in H. rewrite Ec in H.
  destruct (rstrip t) as [| c' t'] eqn:E; [discriminate |].
  now injection H.
Qed.

Lemma strip_idempotent (s : string) : strip (strip s) = strip s.
Proof.
  unfold strip.
  rewrite (rstrip_lstrip (rstrip s)) by apply rstrip_idempotent.
  apply lstrip_idempotent.
Qed.




End ExtractCode.

(** What [_extract_code_from_response] returns is stripped: stripping it
    again changes nothing, so generated code never starts or ends with
    white space. *)
Theorem extract_code_is_stripped (dict_str : string) (r : response) :
  strip (_extract_code_from_response dict_str r)
  = _extract_code_from_response dict_str r.
Proof. unfold _extract_code_from_response. cbv zeta. apply strip_idempotent. Qed.


(** * The further properties on sample inputs *)

Lemma batches_within_batch_size_witness :
  (Z.of_nat (List.length [pk "B" ["A"]; pk "C" ["A"]]) <= 2)%Z.
Proof.
  apply (batches_within_batch_size reliable 4 (team_with 2 diamond)
           [pk "B" ["A"]; pk "C" ["A"]]).
  - apply fresh_team_with.
  - cbn. lia.
  - vm_compute. tauto.
Defined.

Lemma completed_count_bounded_witness :
  (0 <= Status.remaining
          (get_status (team_of (execute_work_packages flaky 1
                                  (team_with 3 [pk "A" []])))))%Z.
Proof.
  apply (completed_count_bounded flaky 1 (team_with 3 [pk "A" []])).
  apply fresh_team_with.
Defined.

Lemma returned_run_leaves_nothing_runnable_witness :
  exists t',
    execute_work_packages reliable 2
      (team_with 3 [pk "A" []; pk "B" ["ghost"]]) = Returned t'
    /\ _get_available_packages t' = [].
Proof.
  eexists. split; [reflexivity |].
  apply (returned_run_leaves_nothing_runnable reliable 2
           (team_with 3 [pk "A" []; pk "B" ["ghost"]])).
  - apply fresh_team_with.
  - reflexivity.
Defined.

Lemma completed_ids_unique_witness :
  NoDup (completed_packages
           (team_of (execute_work_packages reliable 4 (team_with 2 diamond)))).
Proof.
  apply (completed_ids_unique reliable 4 (team_with 2 diamond)).
  - apply fresh_team_with.
  - cbn. repeat constructor; cbn; intuition discriminate.
Defined.

Lemma report_artifacts_of_completed_witness :
  exists t',
    execute_work_packages reliable 1
      (team_with 3 [pk_file "WP001" "backend_engineer" "src/main.py"])
    = Returned t'
    /\ files_created
         (generate_final_report sample_externals
            (agent_objects_after env_ok t') t') = 1.
Proof.
  eexists. split; [reflexivity |].
  match goal with
  | |- files_created (generate_final_report _ ?objects ?t') = _ =>
      destruct (report_artifacts_of_completed reliable 1 sample_externals
                  objects
                  (team_with 3
                     [pk_file "WP001" "backend_engineer" "src/main.py"])
                  t' (Some "src/main.py") (fresh_team_with _ _) eq_refl)
        as [Hcount _]
  end.
  - vm_compute. tauto.
  - rewrite Hcount. reflexivity.
Defined.

Lemma report_state_ignores_blocking_witness :
  exists r t',
    solve_problem reliable 3 sample_externals
                  (agent_objects_after env_ok (new_team 3))
                  [pk "A" []; pk "X" ["Y"]; pk "Y" ["X"]]
                  (new_team 3) = Report r t'
    /\ In (LogBlocked ["X"; "Y"]) (log t')
    /\ final_state r = EXECUTING /\ state t' = COMPLETED.
Proof.
  eexists. eexists. split; [reflexivity |]. split; [vm_compute; tauto |].
  destruct (report_state_ignores_blocking reliable 3 sample_externals
              (agent_objects_after env_ok (new_team 3))
              [pk "A" []; pk "X" ["Y"]; pk "Y" ["X"]] (new_team 3) _ _ eq_refl)
    as [_ [Hf [Hs _]]].
  split; [exact Hf | exact Hs].
Defined.

Lemma routing_returns_registered_agent_witness :
  In "frontend_specialist" team_agents.
Proof.
  apply (routing_returns_registered_agent team_agents
           (pk_file "WP002" "designer" "index.html")).
  reflexivity.
Defined.

Lemma routing_total_with_specialists_witness :
  exists a,
    _find_agent_for_package team_agents (pk_file "WP003" "nobody" "notes.txt")
    = Some a.
Proof.
  apply routing_total_with_specialists.
  intros n Hn. cbn in Hn. cbn. intuition.
Defined.

Lemma file_type_ignores_case_witness :
  _get_file_type "SRC/Main.PY" = _get_file_type "src/main.py".
Proof. apply file_type_ignores_case. reflexivity. Defined.

Lemma packages_by_agent_routed_witness :
  _find_agent_for_package team_agents
    (pk_file "WP001" "backend_engineer" "index.html")
  = Some "backend_specialist".
Proof.
  apply (packages_by_agent_routed team_agents
           [pk_file "WP001" "backend_engineer" "index.html";
            pk_file "WP002" "qa_engineer" "test_app.py"]
           "backend_engineer" "backend_specialist").
  - reflexivity.
  - cbn. tauto.
  - cbn. tauto.
Defined.

Lemma parse_json_ignores_surrounding_text_witness :
  _parse_json_response nat (fun s => Some (String.length s))
    (RespOther "Here is the plan: {x} done.")
  = Parsed 3.
Proof.
  apply (parse_json_ignores_surrounding_text nat
           (fun s => Some (String.length s))
           "Here is the plan: " "x" " done.").
  - reflexivity.
  - reflexivity.
Defined.

Lemma determine_file_type_by_extension_witness :
  _determine_file_type "src/app.PY" = _determine_file_type "PY".
Proof.
  apply (determine_file_type_by_extension "src/app" "PY"). reflexivity.
Defined.

Lemma determine_file_type_ignores_case_witness :
  _determine_file_type "Index.HTML" = _determine_file_type "index.html".
Proof. apply determine_file_type_ignores_case. reflexivity. Defined.

Lemma file_types_agree_on_markup_witness :
  _determine_file_type "web/index.html" = "html".
Proof.
  apply (file_types_agree_on_markup "web/index.html" "html").
  - left. reflexivity.
  - reflexivity.
Defined.

Lemma agent_absorbs_errors_witness :
  snd (execute_work_package env_gen_raises new_agent
         (pk_file "WP001" "backend_engineer" "src/main.py")) = true.
Proof. apply agent_absorbs_errors; discriminate. Defined.

Lemma agent_completes_without_files_witness :
  agent_completed_packages
    (fst (execute_work_package env_no_write new_agent
            (pk_file "WP001" "backend_engineer" "src/main.py")))
  = ["WP001"].
Proof.
  apply (agent_completes_without_files env_no_write new_agent
           (pk_file "WP001" "backend_engineer" "src/main.py"));
    try discriminate; intros; discriminate.
Defined.

Lemma team_completes_what_agent_failed_witness :
  agent_completed_packages
    (fst (execute_work_package env_gen_raises new_agent
            (pk_file "WP001" "backend_engineer" "src/main.py")))
  = []
  /\ In "WP001"
        (completed_packages
           (fst (_execute_single_package
                   (agent_worker env_gen_raises new_agent)
                   (team_with 3 [pk_file "WP001" "backend_engineer" "src/main.py"])
                   (pk_file "WP001" "backend_engineer" "src/main.py")))).
Proof.
  destruct (team_completes_what_agent_failed env_gen_raises new_agent
              (team_with 3 [pk_file "WP001" "backend_engineer" "src/main.py"])
              (pk_file "WP001" "backend_engineer" "src/main.py")
              "backend_specialist" (mkFile (Some "src/main.py")) []
              "s" "rc/main.py")
    as [H1 [_ [H2 _]]]; try discriminate; try reflexivity.
  split; [exact H1 | exact H2].
Defined.

Lemma get_next_step_ready_witness :
  ProjectPlan.status (step "STEP_01" []) = ProjectPlan.PENDING.
Proof.
  apply (get_next_step_ready two_steps (step "STEP_01" [])). reflexivity.
Defined.

Lemma get_next_step_none_witness :
  exists d sd,
    In d ["STEP_02"]
    /\ ProjectPlan.get_step_by_id
         (ProjectPlan.mkPlan "P" "D"
            [step "STEP_01" ["STEP_02"]; step "STEP_02" ["STEP_01"]]) d
       = Some sd
    /\ ProjectPlan.status sd <> ProjectPlan.COMPLETED.
Proof.
  apply (get_next_step_none
           (ProjectPlan.mkPlan "P" "D"
              [step "STEP_01" ["STEP_02"]; step "STEP_02" ["STEP_01"]])
           (step "STEP_01" ["STEP_02"])).
  - reflexivity.
  - cbn. tauto.
  - reflexivity.
Defined.

Lemma get_next_step_raises_on_missing_witness :
  ~ ProjectPlan.resolved
      (ProjectPlan.mkPlan "P" "D" [step "STEP_01" ["STEP_00"]]).
Proof.
  apply (get_next_step_raises_on_missing
           (ProjectPlan.mkPlan "P" "D" [step "STEP_01" ["STEP_00"]])).
  reflexivity.
Defined.

Lemma initiate_next_step_starts_ready_witness :
  exists p',
    ProjectPlan.initiate_next_step 7 two_steps = ProjectPlan.Ok p'
    /\ nth_error (ProjectPlan.steps p') 0
       = Some (ProjectPlan.start_step 7 (step "STEP_01" [])).
Proof.
  eexists. split; [reflexivity |].
  destruct (initiate_next_step_starts_ready 7 two_steps _ eq_refl)
    as [[_ H] | [i [s [Hnth [Hnext [_ [_ [Hstarted _]]]]]]]].
  - discriminate H.
  - cbn in Hnext. injection Hnext as <-.
    destruct i as [| [| i]].
    + exact Hstarted.
    + vm_compute in Hnth. discriminate Hnth.
    + cbn in Hnth. destruct i; discriminate Hnth.
Defined.

